(** * xmlfrob: attribute edits on an XML token stream

    A shallow embedding of [xmlfrob.go]: the modification parser
    [parseModifications] and the rewrite engine [frobnicate], together
    with the parts of Go's [strings], [bytes] and [encoding/xml] packages
    the two functions call.

    Go strings and byte buffers are [string]s (sequences of bytes).  The
    decoder of [encoding/xml] is a parameter of the development (see
    [XmlLibrary]); the printer behind [Encoder.EncodeToken] is written
    out for names without a prefix and answers [Unmodelled] where its
    answer rests on state this model does not carry. *)

From Stdlib Require Import String Ascii List Bool Arith Lia ZArith.
Import ListNotations.

Open Scope string_scope.

(** ** Bytes and strings *)

(** A string of one byte. *)
Definition byte (c : ascii) : string := String c EmptyString.

(** The double quote, code 34. *)
Definition dquote : ascii := "034"%char.

(** [strings.IndexByte]-style search that also splits: the text before
    and after the first occurrence of [sep], or [None] when [s] does not
    hold [sep]. *)
Fixpoint cut (sep : ascii) (s : string) : option (string * string) :=
  match s with
  | EmptyString => None
  | String c s' =>
      if Ascii.eqb c sep then Some (EmptyString, s')
      else match cut sep s' with
           | Some (before, after) => Some (String c before, after)
           | None => None
           end
  end.

(** [strings.SplitN(s, sep, n)] for a separator of one byte and [n >= 0]:
    at most [n] substrings, the last one being the unsplit remainder;
    [n = 0] gives the empty slice. *)
Fixpoint SplitN (s : string) (sep : ascii) (n : nat) : list string :=
  match n with
  | 0 => []
  | S n' =>
      match n' with
      | 0 => [s]
      | S _ =>
          match cut sep s with
          | None => [s]
          | Some (before, after) => before :: SplitN after sep n'
          end
      end
  end.

(** [s] holds the byte [c]. *)
Fixpoint contains (c : ascii) (s : string) : bool :=
  match s with
  | EmptyString => false
  | String a s' => Ascii.eqb a c || contains c s'
  end.

(** [bytes.LastIndexByte]: the index of the last [c] in [s], or [-1]. *)
Fixpoint LastIndexByte (s : string) (c : ascii) : Z :=
  match s with
  | EmptyString => (-1)%Z
  | String a s' =>
      let i := LastIndexByte s' c in
      if (0 <=? i)%Z then (i + 1)%Z
      else if Ascii.eqb a c then 0%Z else (-1)%Z
  end.

(** [bytes.Buffer.Truncate(n)]: keeps the first [n] bytes; it panics
    ([None]) when [n] is negative or beyond the length. *)
Definition Truncate (n : Z) (s : string) : option string :=
  if ((n <? 0) || (Z.of_nat (String.length s) <? n))%Z then None
  else Some (substring 0 (Z.to_nat n) s).

(** The last byte of a buffer, [b.Bytes()[b.Len()-1]]; indexing an empty
    buffer panics ([None]). *)
Fixpoint lastByte (s : string) : option ascii :=
  match s with
  | EmptyString => None
  | String c s' => match s' with
                   | EmptyString => Some c
                   | String _ _ => lastByte s'
                   end
  end.

(** ** The modification parser *)

(** A modification: element path, attribute name and the new value. *)
Record modification := mkMod {
  path : string;
  attribute : string;
  value : string
}.

(** The text of the error [parseModifications] returns for [modString]:
    fmt.Errorf with the string put between double quotes. *)
Definition invalidMod (modString : string) : string :=
  "Invalid mod " ++ byte dquote ++ modString ++ byte dquote
    ++ ": expected syntax /xml/path@attr=newValue".

(** One round of the loop of [parseModifications]: the two splits and the
    length test. *)
Definition parseModification (modString : string) : modification + string :=
  let pathAttrValue := SplitN modString "=" 2 in
  let pathAttr := SplitN (nth 0 pathAttrValue EmptyString) "@" 2 in
  if negb (Nat.eqb (List.length pathAttrValue) 2)
     || negb (Nat.eqb (List.length pathAttr) 2)
  then inr (invalidMod modString)
  else inl {| path := nth 0 pathAttr EmptyString;
              attribute := nth 1 pathAttr EmptyString;
              value := nth 1 pathAttrValue EmptyString |}.

(** [parseModifications]: the strings are parsed in order and the first
    one that fails ends the call with its error. *)
Fixpoint parseModifications (modStrings : list string)
  : list modification + string :=
  match modStrings with
  | [] => inl []
  | modString :: rest =>
      match parseModification modString with
      | inr err => inr err
      | inl m =>
          match parseModifications rest with
          | inr err => inr err
          | inl ms => inl (m :: ms)
          end
      end
  end.

(** ** Tokens of [encoding/xml] *)

(** [xml.Name]: for a token of [Decoder.RawToken], [Space] is the prefix
    as written (the text before the colon) and [Local] the rest. *)
Record Name := mkName {
  Space : string;
  Local : string
}.

(** [xml.Attr]. *)
Record Attr := mkAttr {
  AttrName : Name;
  Value : string
}.

(** [xml.Token]: the six kinds of token the decoder hands out. *)
Inductive Token : Type :=
| StartElement (name : Name) (attr : list Attr)
| EndElement (name : Name)
| CharData (data : string)
| Comment (data : string)
| ProcInst (target : string) (inst : string)
| Directive (data : string).

(** How a decoder's token sequence ends: [io.EOF], or another error
    with its text. *)
Inductive readError : Type :=
| EOF
| OtherError (text : string).

(** A decoder over a finite input, as [frobnicate] sees it: the tokens
    that successive calls of [RawToken] return, then the error that
    every later call returns. *)
Record Decoder := mkDecoder {
  tokens : list Token;
  stop : readError
}.

(** The parts of [encoding/xml] taken as parameters: the lexer behind
    [xml.NewDecoder] and [RawToken], and the two syntax tests the
    printer applies to a processing instruction and to a directive. *)
Class XmlLibrary := {
  NewDecoder : string -> Decoder;
  isNameString : string -> bool;
  isValidDirective : string -> bool
}.

(** ** The printer of [encoding/xml] *)

(** Why [EncodeToken] refused a token.  [Unmodelled] marks the two
    places where the printer's answer rests on state this model does
    not carry: the prefix table behind an attribute whose name has a
    prefix, and the count of bytes pending in the printer's writer that
    decides on an xml declaration after the first output. *)
Inductive error : Type :=
| StartTagNoName
| EndTagNoName
| EndTagWithoutStart (name : Name)
| EndTagMismatch (name top : Name)
| CommentMarker
| ProcInstNotFirst
| ProcInstTarget
| ProcInstMarker
| DirectiveMarkers
| Unmodelled.

(** [pat] is a prefix of [s]. *)
Fixpoint hasPrefix (pat s : string) : bool :=
  match pat, s with
  | EmptyString, _ => true
  | String a pat', String b s' => Ascii.eqb a b && hasPrefix pat' s'
  | String _ _, EmptyString => false
  end.

(** [bytes.Contains]: [pat] occurs in [s]. *)
Fixpoint Contains (s pat : string) : bool :=
  hasPrefix pat s ||
  match s with
  | EmptyString => false
  | String _ s' => Contains s' pat
  end.

(** The replacement text of one byte in [escapeText]; bytes from 128 on
    are kept, as the printer keeps well-formed UTF-8 in XML's character
    range (it writes U+FFFD for anything else, and for the control
    characters below 32 other than tab, newline and carriage return). *)
Definition escapeByte (escapeNewline : bool) (c : ascii) : string :=
  let n := nat_of_ascii c in
  if (n =? 34)%nat then "&#34;"
  else if (n =? 39)%nat then "&#39;"
  else if (n =? 38)%nat then "&amp;"
  else if (n =? 60)%nat then "&lt;"
  else if (n =? 62)%nat then "&gt;"
  else if (n =? 9)%nat then "&#x9;"
  else if (n =? 10)%nat then (if escapeNewline then "&#xA;" else byte c)
  else if (n =? 13)%nat then "&#xD;"
  else if (n <? 32)%nat then String "239" (String "191" (String "189" EmptyString))
  else byte c.

(** [escapeText(w, s, escapeNewline)]. *)
Fixpoint escapeText (escapeNewline : bool) (s : string) : string :=
  match s with
  | EmptyString => EmptyString
  | String c s' => escapeByte escapeNewline c ++ escapeText escapeNewline s'
  end.

(** [printer.EscapeString], used for attribute values: newlines are
    escaped too. *)
Definition EscapeString (s : string) : string := escapeText true s.

(** What [writeStart] writes for one attribute: nothing when the local
    name is empty, [ name="value"] when the name has no prefix;
    [None] when it has one. *)
Definition writeAttr (a : Attr) : option string :=
  if Local (AttrName a) =? "" then Some EmptyString
  else if Space (AttrName a) =? "" then
    Some (" " ++ Local (AttrName a) ++ "=" ++ byte dquote
            ++ EscapeString (Value a) ++ byte dquote)
  else None.

(** The attributes of a start tag, in order. *)
Fixpoint writeAttrs (attr : list Attr) : option string :=
  match attr with
  | [] => Some EmptyString
  | a :: rest =>
      match writeAttr a, writeAttrs rest with
      | Some x, Some y => Some (x ++ y)
      | _, _ => None
      end
  end.

(** The start tag up to, and without, its closing [>]: the local name,
    an [xmlns] declaration holding the prefix when there is one, and
    the attributes. *)
Definition startHead (name : Name) (attr : list Attr) : option string :=
  match writeAttrs attr with
  | None => None
  | Some attrs =>
      Some ("<" ++ Local name
              ++ (if Space name =? "" then EmptyString
                  else " xmlns=" ++ byte dquote ++ EscapeString (Space name)
                         ++ byte dquote)
              ++ attrs)
  end.

(** [xml.Encoder] writing to a [bytes.Buffer]: [w] is the buffer with
    all that was written (the encoder's own buffering is seen through:
    [frobnicate] flushes before it reads the buffer), [tags] the stack
    of open elements, innermost first. *)
Record Encoder := mkEncoder {
  w : string;
  tags : list Name
}.

Definition NewEncoder : Encoder := {| w := EmptyString; tags := [] |}.

(** [p.WriteString]. *)
Definition WriteString (out : Encoder) (s : string) : Encoder :=
  {| w := w out ++ s; tags := tags out |}.

Definition Name_eqb (a b : Name) : bool :=
  (Space a =? Space b) && (Local a =? Local b).

Section Printer.
Context {lib : XmlLibrary}.

(** [printer.writeStart]. *)
Definition writeStart (out : Encoder) (name : Name) (attr : list Attr)
  : Encoder + error :=
  if Local name =? "" then inr StartTagNoName
  else match startHead name attr with
       | None => inr Unmodelled
       | Some head =>
           inl {| w := w out ++ head ++ ">"; tags := name :: tags out |}
       end.

(** [printer.writeEnd]. *)
Definition writeEnd (out : Encoder) (name : Name) : Encoder + error :=
  if Local name =? "" then inr EndTagNoName
  else match tags out with
       | [] => inr (EndTagWithoutStart name)
       | top :: rest =>
           if Local top =? "" then inr (EndTagWithoutStart name)
           else if negb (Name_eqb top name) then inr (EndTagMismatch name top)
           else inl {| w := w out ++ "</" ++ Local name ++ ">";
                       tags := rest |}
       end.

(** [Encoder.EncodeToken]. *)
Definition EncodeToken (out : Encoder) (t : Token) : Encoder + error :=
  match t with
  | StartElement name attr => writeStart out name attr
  | EndElement name => writeEnd out name
  | CharData data => inl (WriteString out (escapeText false data))
  | Comment data =>
      if Contains data "-->" then inr CommentMarker
      else inl (WriteString out ("<!--" ++ data ++ "-->"))
  | ProcInst target inst =>
      if (target =? "xml") && negb (w out =? "") then inr Unmodelled
      else if negb (isNameString target) then inr ProcInstTarget
      else if Contains inst "?>" then inr ProcInstMarker
      else inl (WriteString out
                  ("<?" ++ target
                     ++ (if inst =? "" then EmptyString else " " ++ inst)
                     ++ "?>"))
  | Directive data =>
      if negb (isValidDirective data) then inr DirectiveMarkers
      else inl (WriteString out ("<!" ++ data ++ ">"))
  end.
End Printer.

(** ** The rewrite engine *)

(** The path of the plugin elements that [frobnicate] drops. *)
Definition legacyPath : string :=
  "/project/profiles/profile/build/plugins/plugin".

(** Go's [int] on a 64-bit platform: the value an arithmetic result
    wraps to. *)
Definition wrapInt (z : Z) : Z :=
  ((z + 2 ^ 63) mod 2 ^ 64 - 2 ^ 63)%Z.

(** A run-time panic of [frobnicate]: [path.Truncate] with a negative
    index, the index [outbytes.Len()-1] taken in an empty buffer, and
    the panic the function raises itself. *)
Inductive panic : Type :=
| TruncationOutOfRange
| IndexOutOfRange
| ExpectedGT.

(** How a call of [frobnicate] ends: it returns the buffer and a nil
    error, it returns a nil buffer and an error, [log.Fatalf] logs a
    message and ends the process, or the goroutine panics. *)
Inductive result : Type :=
| Returned (buf : string)
| Failed (err : error)
| Fatal (msg : string)
| Panicked (p : panic).

(** The local variables of [frobnicate] that live across rounds of its
    loop; [outbytes] is [w out], and [pathBuf] is the variable [path]. *)
Record state := mkState {
  out : Encoder;
  previousWasStart : bool;
  pathBuf : string;
  skip : bool;
  pluginNo : Z
}.

Definition outbytes (st : state) : string := w (out st).

(** The inner loop of lines 107 to 111: every attribute whose local name
    is the modification's gets the modification's value. *)
Definition setValue (pat : modification) (attr : list Attr) : list Attr :=
  map (fun a =>
         if Local (AttrName a) =? attribute pat
         then {| AttrName := AttrName a; Value := value pat |}
         else a)
      attr.

(** The loop of lines 105 to 113 over the modifications, in list order,
    at the traversal path [cur]. *)
Definition applyModifications (modifications : list modification)
    (cur : string) (attr : list Attr) : list Attr :=
  fold_left
    (fun attr pat => if cur =? path pat then setValue pat attr else attr)
    modifications attr.

Section Engine.
Context {lib : XmlLibrary}.

(** One round of the loop for the token [tok]: the next state, or the
    result the call ends with. *)
Definition step (modifications : list modification) (st : state)
    (tok : Token) : state + result :=
  match tok with
  | StartElement name attr =>
      let path1 := pathBuf st ++ "/" ++ Local name in
      let hit := path1 =? legacyPath in
      let skip1 :=
        if hit then (pluginNo st =? 0)%Z || (pluginNo st =? 1)%Z
        else skip st in
      let pluginNo1 :=
        if hit then wrapInt (pluginNo st + 1) else pluginNo st in
      let attr1 := applyModifications modifications path1 attr in
      if skip1 then
        inl {| out := out st; previousWasStart := true;
               pathBuf := path1; skip := skip1; pluginNo := pluginNo1 |}
      else
        match EncodeToken (out st) (StartElement name attr1) with
        | inr err => inr (Failed err)
        | inl out1 =>
            inl {| out := out1; previousWasStart := true;
                   pathBuf := path1; skip := skip1; pluginNo := pluginNo1 |}
        end
  | EndElement name =>
      let cur := pathBuf st in
      match Truncate (LastIndexByte cur "/") cur with
      | None => inr (Panicked TruncationOutOfRange)
      | Some path1 =>
          let skip1 := if cur =? legacyPath then false else skip st in
          if skip st then
            inl {| out := out st; previousWasStart := previousWasStart st;
                   pathBuf := path1; skip := skip1;
                   pluginNo := pluginNo st |}
          else if previousWasStart st then
            match lastByte (outbytes st) with
            | None => inr (Panicked IndexOutOfRange)
            | Some c =>
                if negb (Ascii.eqb c ">") then inr (Panicked ExpectedGT)
                else
                  let pos :=
                    (Z.of_nat (String.length (outbytes st)) - 1)%Z in
                  match EncodeToken (out st) tok with
                  | inr err => inr (Failed err)
                  | inl out1 =>
                      match Truncate pos (w out1) with
                      | None => inr (Panicked TruncationOutOfRange)
                      | Some kept =>
                          inl {| out := {| w := kept ++ "/>";
                                           tags := tags out1 |};
                                 previousWasStart := false;
                                 pathBuf := path1; skip := skip1;
                                 pluginNo := pluginNo st |}
                      end
                  end
            end
          else
            match EncodeToken (out st) tok with
            | inr err => inr (Failed err)
            | inl out1 =>
                inl {| out := out1; previousWasStart := false;
                       pathBuf := path1; skip := skip1;
                       pluginNo := pluginNo st |}
            end
      end
  | _ =>
      if skip st then
        inl {| out := out st; previousWasStart := false;
               pathBuf := pathBuf st; skip := skip st;
               pluginNo := pluginNo st |}
      else
        match EncodeToken (out st) tok with
        | inr err => inr (Failed err)
        | inl out1 =>
            inl {| out := out1; previousWasStart := false;
                   pathBuf := pathBuf st; skip := skip st;
                   pluginNo := pluginNo st |}
        end
  end.

(** The rounds of the loop over the tokens the decoder returns before
    its error. *)
Fixpoint loop (modifications : list modification) (st : state)
    (toks : list Token) : state + result :=
  match toks with
  | [] => inl st
  | tok :: rest =>
      match step modifications st tok with
      | inr r => inr r
      | inl st1 => loop modifications st1 rest
      end
  end.

(** The variables as the loop is entered. *)
Definition initial : state :=
  {| out := NewEncoder; previousWasStart := false;
     pathBuf := EmptyString; skip := false; pluginNo := 0 |}.

(** What happens when [RawToken] returns its error: [io.EOF] leaves
    the loop and the buffer is returned after the last flush, any
    other error goes to [log.Fatalf]. *)
Definition finish (st : state) (err : readError) : result :=
  match err with
  | EOF => Returned (outbytes st)
  | OtherError text =>
      Fatal ("Unexpected error while parsing XML file: " ++ text)
  end.

(** The body of [frobnicate] once the decoder is made. *)
Definition run (decoder : Decoder) (modifications : list modification)
  : result :=
  match loop modifications initial (tokens decoder) with
  | inr r => r
  | inl st => finish st (stop decoder)
  end.

(** [frobnicate(in, modifications)]. *)
Definition frobnicate (input : string)
    (modifications : list modification) : result :=
  let decoder := NewDecoder input in
  run decoder modifications.
End Engine.

(** ** A lexer for a fragment of XML

    [Lexer.NewDecoder] reads the documents made of elements with names
    without prefix, attributes between single or double quotes, text and
    comments, over printable ASCII, tab and newline, without entity or
    character references.  On these it yields the tokens of
    [Decoder.RawToken].  Every other input ends in [OtherError], whether
    the library reads it or not: the lexer stands for the library only
    inside the fragment. *)
Module Lexer.

Definition code (c : ascii) : nat := nat_of_ascii c.

Definition between (lo hi : nat) (c : ascii) : bool :=
  (lo <=? code c)%nat && (code c <=? hi)%nat.

(** [Decoder.space] skips blank, tab, newline and carriage return. *)
Definition isSpace (c : ascii) : bool :=
  (code c =? 32)%nat || (code c =? 9)%nat || (code c =? 10)%nat
  || (code c =? 13)%nat.

(** The ASCII letters and the underscore: the first byte of a name. *)
Definition isNameStart (c : ascii) : bool :=
  between 65 90 c || between 97 122 c || (code c =? 95)%nat.

(** The later bytes of a name: also digits, dot and hyphen. *)
Definition isNameByte (c : ascii) : bool :=
  isNameStart c || between 48 57 c || (code c =? 46)%nat
  || (code c =? 45)%nat.

(** The bytes of text and of attribute values in the fragment:
    printable ASCII, tab and newline, without the ampersand. *)
Definition isTextByte (c : ascii) : bool :=
  (between 32 126 c || (code c =? 9)%nat || (code c =? 10)%nat)
  && negb (code c =? 38)%nat.

Fixpoint all (p : ascii -> bool) (s : string) : bool :=
  match s with
  | EmptyString => true
  | String c s' => p c && all p s'
  end.

(** The longest prefix of [s] whose bytes satisfy [p], and the rest. *)
Fixpoint span (p : ascii -> bool) (s : string) : string * string :=
  match s with
  | EmptyString => (EmptyString, EmptyString)
  | String c s' =>
      if p c then let '(a, b) := span p s' in (String c a, b)
      else (EmptyString, s)
  end.

Definition skipSpace (s : string) : string := snd (span isSpace s).

(** A name at the head of [s]. *)
Definition name (s : string) : option (string * string) :=
  match s with
  | EmptyString => None
  | String c _ =>
      if isNameStart c then Some (span isNameByte s) else None
  end.

(** The test of the printer on the target of a processing
    instruction, for ASCII names. *)
Definition isNameString (s : string) : bool :=
  match s with
  | EmptyString => false
  | String c s' => isNameStart c && all isNameByte s'
  end.

(** The text of a value or of character data is in the fragment, and
    free of the sequence the decoder refuses outside CDATA. *)
Definition plainText (s : string) : bool :=
  all isTextByte s && negb (Contains s "]]>").

(** An attribute value between quotes at the head of [s]. *)
Definition attrval (s : string) : option (string * string) :=
  match s with
  | EmptyString => None
  | String q s' =>
      if (code q =? 34)%nat || (code q =? 39)%nat then
        match cut q s' with
        | None => None
        | Some (v, rest) =>
            if plainText v && negb (contains "<" v) then Some (v, rest)
            else None
        end
      else None
  end.

(** The attributes of a start tag and its end: [Some (attr, empty,
    rest)] where [empty] tells that the tag ended in [/>]. *)
Fixpoint attrs (fuel : nat) (s : string)
  : option (list Attr * bool * string) :=
  match fuel with
  | 0 => None
  | S fuel' =>
      match skipSpace s with
      | EmptyString => None
      | String c s1 =>
          if (code c =? 47)%nat then
            match s1 with
            | String d s2 =>
                if (code d =? 62)%nat then Some ([], true, s2) else None
            | EmptyString => None
            end
          else if (code c =? 62)%nat then Some ([], false, s1)
          else
            match name (String c s1) with
            | None => None
            | Some (n, s2) =>
                match skipSpace s2 with
                | String e s3 =>
                    if (code e =? 61)%nat then
                      match attrval (skipSpace s3) with
                      | None => None
                      | Some (v, s4) =>
                          match attrs fuel' s4 with
                          | None => None
                          | Some (l, empty, rest) =>
                              Some ({| AttrName := mkName EmptyString n;
                                       Value := v |} :: l, empty, rest)
                          end
                      end
                    else None
                | EmptyString => None
                end
            end
      end
  end.

Definition outside : Decoder :=
  {| tokens := [];
     stop := OtherError "XML syntax error, or input outside the fragment" |}.

Definition emit (t : Token) (d : Decoder) : Decoder :=
  {| tokens := t :: tokens d; stop := stop d |}.

(** The tokens of [s]. *)
Fixpoint lex (fuel : nat) (s : string) : Decoder :=
  match fuel with
  | 0 => outside
  | S fuel' =>
      match s with
      | EmptyString => {| tokens := []; stop := EOF |}
      | String c s1 =>
          if negb (code c =? 60)%nat then
            let '(data, rest) := span (fun b => negb (code b =? 60)%nat) s in
            if plainText data then emit (CharData data) (lex fuel' rest)
            else outside
          else if hasPrefix "/" s1 then
            match name (substring 1 (String.length s1) s1) with
            | None => outside
            | Some (n, s2) =>
                match skipSpace s2 with
                | String e s3 =>
                    if (code e =? 62)%nat
                    then emit (EndElement (mkName EmptyString n))
                              (lex fuel' s3)
                    else outside
                | EmptyString => outside
                end
            end
          else if hasPrefix "!--" s1 then
            let body := substring 3 (String.length s1) s1 in
            match cut "-" body with
            | None => outside
            | Some (a, b) =>
                if hasPrefix "->" b && all isTextByte a
                then emit (Comment a)
                          (lex fuel' (substring 2 (String.length b) b))
                else outside
            end
          else
            match name s1 with
            | None => outside
            | Some (n, s2) =>
                match attrs (S (String.length s2)) s2 with
                | None => outside
                | Some (l, empty, rest) =>
                    let nm := mkName EmptyString n in
                    if empty
                    then emit (StartElement nm l)
                              (emit (EndElement nm) (lex fuel' rest))
                    else emit (StartElement nm l) (lex fuel' rest)
                end
            end
      end
  end.

Definition NewDecoder (input : string) : Decoder :=
  lex (S (String.length input)) input.

End Lexer.

(** The library as the examples below use it: the fragment's lexer and
    the ASCII name test.  The lexer yields no directive; the test on
    directives accepts the ones without markup or quote characters. *)
#[export] Instance fragment : XmlLibrary := {|
  NewDecoder := Lexer.NewDecoder;
  isNameString := Lexer.isNameString;
  isValidDirective := fun data =>
    negb (contains "<" data || contains ">" data
          || contains dquote data || contains "'" data)
|}.

(** ** Notions the statements use *)

(** The text of [s] before its first [sep]; all of [s] when there is
    none. *)
Definition beforeFirst (sep : ascii) (s : string) : string :=
  match cut sep s with
  | Some (before, _) => before
  | None => s
  end.

(** An edit string holds [=], and [@] before its first [=]. *)
Definition accepted (s : string) : Prop :=
  contains "=" s = true /\ contains "@" (beforeFirst "=" s) = true.

(** The traversal path after an end tag, as line 124 computes it; the
    path is kept where the engine would panic. *)
Definition popPath (p : string) : string :=
  match Truncate (LastIndexByte p "/") p with
  | Some q => q
  | None => p
  end.

(** The traversal path after the token [tok], from the path [p]. *)
Definition pathAfter (p : string) (tok : Token) : string :=
  match tok with
  | StartElement name _ => p ++ "/" ++ Local name
  | EndElement _ => popPath p
  | _ => p
  end.

(** The traversal paths of the start tags of [toks], in order, for a
    traversal that begins at the path [p]. *)
Fixpoint paths (p : string) (toks : list Token) : list string :=
  match toks with
  | [] => []
  | StartElement name attr :: rest =>
      pathAfter p (StartElement name attr)
        :: paths (pathAfter p (StartElement name attr)) rest
  | tok :: rest => paths (pathAfter p tok) rest
  end.

(** The number of start tags of [toks] whose traversal path is [q]. *)
Definition occurrences (q : string) (toks : list Token) : nat :=
  count_occ string_dec (paths EmptyString toks) q.

(** No start tag of [toks] stands at the path of the dropped plugins. *)
Definition legacyFree (p : string) (toks : list Token) : Prop :=
  ~ In legacyPath (paths p toks).

(** The tokens with the modifications applied to every start tag at its
    traversal path: what lines 105 to 113 make of the token stream. *)
Fixpoint edited (modifications : list modification) (p : string)
    (toks : list Token) : list Token :=
  match toks with
  | [] => []
  | StartElement name attr :: rest =>
      StartElement name
        (applyModifications modifications (p ++ "/" ++ Local name) attr)
        :: edited modifications (p ++ "/" ++ Local name) rest
  | tok :: rest => tok :: edited modifications (pathAfter p tok) rest
  end.

(** The modifications as one attribute sees them: each modification at
    the path [cur] that names the attribute sets its value, in order. *)
Definition editAttr (ms : list modification) (cur : string) (a : Attr)
  : Attr :=
  fold_left
    (fun a pat =>
       if (cur =? path pat) && (Local (AttrName a) =? attribute pat)
       then {| AttrName := AttrName a; Value := value pat |} else a)
    ms a.

(** The variables of the loop that decide which tokens are dropped. *)
Record dropState := mkDrop {
  dPath : string;
  dSkip : bool;
  dPluginNo : Z
}.

(** The tokens [frobnicate] hands to [EncodeToken], in order: the edited
    tokens that are not dropped at lines 116, 125 and 164. *)
Fixpoint handed (modifications : list modification) (d : dropState)
    (toks : list Token) : list Token :=
  match toks with
  | [] => []
  | StartElement name attr :: rest =>
      let path1 := dPath d ++ "/" ++ Local name in
      let hit := path1 =? legacyPath in
      let skip1 :=
        if hit then (dPluginNo d =? 0)%Z || (dPluginNo d =? 1)%Z
        else dSkip d in
      let pluginNo1 :=
        if hit then wrapInt (dPluginNo d + 1) else dPluginNo d in
      let rest1 :=
        handed modifications
          {| dPath := path1; dSkip := skip1; dPluginNo := pluginNo1 |} rest in
      if skip1 then rest1
      else StartElement name
             (applyModifications modifications path1 attr) :: rest1
  | EndElement name :: rest =>
      let rest1 :=
        handed modifications
          {| dPath := popPath (dPath d);
             dSkip := if dPath d =? legacyPath then false else dSkip d;
             dPluginNo := dPluginNo d |} rest in
      if dSkip d then rest1 else EndElement name :: rest1
  | tok :: rest =>
      if dSkip d then handed modifications d rest
      else tok :: handed modifications d rest
  end.

Definition dropInitial : dropState :=
  {| dPath := EmptyString; dSkip := false; dPluginNo := 0 |}.

(** The number of [/] bytes of a path. *)
Fixpoint slashes (s : string) : nat :=
  match s with
  | EmptyString => 0
  | String c s' => (if Ascii.eqb c "/" then 1 else 0) + slashes s'
  end.

Section Rendering.
Context {lib : XmlLibrary}.

(** The bytes [EncodeToken] writes for a token it accepts, whatever
    was written before. *)
Definition render (tok : Token) : string :=
  match tok with
  | StartElement name attr =>
      match startHead name attr with
      | Some head => head ++ ">"
      | None => EmptyString
      end
  | EndElement name => "</" ++ Local name ++ ">"
  | CharData data => escapeText false data
  | Comment data => "<!--" ++ data ++ "-->"
  | ProcInst target inst =>
      "<?" ++ target ++ (if inst =? "" then EmptyString else " " ++ inst)
        ++ "?>"
  | Directive data => "<!" ++ data ++ ">"
  end.

(** The tokens written one after the other, an end tag that directly
    follows a start tag being fused with it into a self-closing tag. *)
Fixpoint collapse (toks : list Token) : string :=
  match toks with
  | [] => EmptyString
  | StartElement name attr :: rest =>
      match startHead name attr with
      | None => EmptyString
      | Some head =>
          match rest with
          | EndElement _ :: rest' => head ++ "/>" ++ collapse rest'
          | _ => head ++ ">" ++ collapse rest
          end
      end
  | tok :: rest => render tok ++ collapse rest
  end.

(** The text from the end of a start tag on: the tag is closed by
    [/>] when an end tag comes next, by [>] otherwise. *)
Definition closeTail (toks : list Token) : string :=
  match toks with
  | EndElement _ :: rest => "/>" ++ collapse rest
  | _ => ">" ++ collapse toks
  end.

(** The tokens are ones the printer accepts after some output, with
    every end tag closing the innermost open element of [stk]. *)
Fixpoint balanced (stk : list Name) (toks : list Token) : bool :=
  match toks with
  | [] => true
  | StartElement name attr :: rest =>
      negb (Local name =? "")
      && match startHead name attr with Some _ => true | None => false end
      && balanced (name :: stk) rest
  | EndElement name :: rest =>
      match stk with
      | [] => false
      | top :: stk' =>
          negb (Local name =? "") && Name_eqb top name
          && balanced stk' rest
      end
  | CharData _ :: rest => balanced stk rest
  | Comment data :: rest =>
      negb (Contains data "-->") && balanced stk rest
  | ProcInst target inst :: rest =>
      negb (target =? "xml") && isNameString target
      && negb (Contains inst "?>") && balanced stk rest
  | Directive data :: rest =>
      isValidDirective data && balanced stk rest
  end.

(** A token stream the printer accepts from its first token on: an
    xml declaration may come first. *)
Definition wellFormed (toks : list Token) : bool :=
  match toks with
  | ProcInst target inst :: rest =>
      if target =? "xml"
      then isNameString target && negb (Contains inst "?>")
           && balanced [] rest
      else balanced [] toks
  | _ => balanced [] toks
  end.

(** [Normalizes toks input output]: [input] is [toks] written token by
    token in the printer's notation, an empty element being written
    either with its end tag or self-closing, and [output] is the same
    text with every empty element self-closing. *)
Inductive Normalizes : list Token -> string -> string -> Prop :=
| norm_nil : Normalizes [] EmptyString EmptyString
| norm_expanded name attr name' rest head x y :
    startHead name attr = Some head ->
    Normalizes rest x y ->
    Normalizes (StartElement name attr :: EndElement name' :: rest)
      (head ++ ">" ++ "</" ++ Local name' ++ ">" ++ x)
      (head ++ "/>" ++ y)
| norm_closed name attr name' rest head x y :
    startHead name attr = Some head ->
    Normalizes rest x y ->
    Normalizes (StartElement name attr :: EndElement name' :: rest)
      (head ++ "/>" ++ x) (head ++ "/>" ++ y)
| norm_start name attr rest head x y :
    startHead name attr = Some head ->
    (forall name' rest', rest <> EndElement name' :: rest') ->
    Normalizes rest x y ->
    Normalizes (StartElement name attr :: rest)
      (head ++ ">" ++ x) (head ++ ">" ++ y)
| norm_other tok rest x y :
    (forall name attr, tok <> StartElement name attr) ->
    Normalizes rest x y ->
    Normalizes (tok :: rest) (render tok ++ x) (render tok ++ y).
End Rendering.

(** ** Whole elements and the depth of the path *)

(** The tokens are whole elements and tokens between them, after
    [depth] start tags that are still open: every end tag closes an
    open element and none is left open. *)
Fixpoint closed (depth : nat) (toks : list Token) : bool :=
  match toks with
  | [] => Nat.eqb depth 0
  | StartElement _ _ :: rest => closed (S depth) rest
  | EndElement _ :: rest =>
      match depth with
      | O => false
      | S d => closed d rest
      end
  | _ :: rest => closed depth rest
  end.

(** No local name of a start tag holds a slash; the decoder reads no
    such name. *)
Definition slashFree (toks : list Token) : bool :=
  forallb (fun tok =>
             match tok with
             | StartElement name _ => negb (contains "/" (Local name))
             | _ => true
             end) toks.

(** What every state of the loop satisfies: the printer has no more
    open elements than the path has slashes, and while tokens are
    dropped the path is the path of the plugins or lies below it, with
    fewer open elements than that path has slashes. *)
Definition nested (st : state) : Prop :=
  List.length (tags (out st)) <= slashes (pathBuf st)
  /\ (skip st = true ->
      List.length (tags (out st)) < slashes legacyPath
      /\ exists s,
          pathBuf st = legacyPath ++ s
          /\ (s = "" \/ exists s1, s = "/" ++ s1)).

(** ** Sample documents *)

(** A string between double quotes. *)
Definition quoted (s : string) : string := byte dquote ++ s ++ byte dquote.

(** The newline. *)
Definition newline : string := byte "010".

(** The example of the package comment. *)
Definition server_doc : string :=
  "<server>" ++ newline ++ "  <connector port=" ++ quoted "8080" ++ "/>"
    ++ newline ++ "</server>".

Definition server_doc_edited : string :=
  "<server>" ++ newline ++ "  <connector port=" ++ quoted "8181" ++ "/>"
    ++ newline ++ "</server>".

Definition port_8181 : modification :=
  {| path := "/server/connector"; attribute := "port"; value := "8181" |}.

(** The elements around the plugins of a Maven project. *)
Definition project_head : string :=
  "<project><profiles><profile><build><plugins>".

Definition project_tail : string :=
  "</plugins></build></profile></profiles></project>".

(** The tokens up to the third plugin of a project whose first two
    plugins stand in another profile. *)
Definition two_plugins : list Token :=
  tokens (Lexer.NewDecoder
            ("<project><profiles>"
               ++ "<profile><build><plugins><plugin/><plugin/></plugins></build></profile>"
               ++ "<profile><build><plugins>")).

(** The state of the loop after these tokens. *)
Definition after_two_plugins : state :=
  Eval vm_compute in
    match loop [] initial two_plugins with
    | inl st => st
    | inr _ => initial
    end.

(** The state after the start tag of the third plugin. *)
Definition third_plugin : state :=
  Eval vm_compute in
    match step [] after_two_plugins (StartElement (mkName "" "plugin") []) with
    | inl st => st
    | inr _ => initial
    end.

(** The tokens of [<a><b></b></a>]. *)
Definition nested_tokens : list Token :=
  [StartElement (mkName "" "a") [];
   StartElement (mkName "" "b") []; EndElement (mkName "" "b");
   EndElement (mkName "" "a")].

(** The state of the loop after the start tags of [project_head]. *)
Definition in_plugins : state :=
  Eval vm_compute in
    match loop [] initial (tokens (Lexer.NewDecoder project_head)) with
    | inl st => st
    | inr _ => initial
    end.

(** The state after the start tag of the first plugin. *)
Definition first_plugin : state :=
  Eval vm_compute in
    match step [] in_plugins (StartElement (mkName "" "plugin") []) with
    | inl st => st
    | inr _ => initial
    end.

(** The tokens of [<x>t</x>]. *)
Definition child_tokens : list Token :=
  [StartElement (mkName "" "x") []; CharData "t";
   EndElement (mkName "" "x")].

(** * Lemmas *)

(** Case analysis along the tests of a hypothesis on [step]. *)
Ltac break_match H :=
  repeat match type of H with
    | (match ?x with _ => _ end) = _ => destruct x eqn:?
    | (if ?x then _ else _) = _ => destruct x eqn:?
    end.

(** ** Strings *)

Lemma append_nil_r (s : string) : s ++ EmptyString = s.
Proof. induction s as [|c s IH]; simpl; [reflexivity | now rewrite IH]. Qed.

Lemma append_assoc (a b c : string) : (a ++ b) ++ c = a ++ b ++ c.
Proof. induction a as [|x a IH]; simpl; [reflexivity | now rewrite IH]. Qed.

Lemma length_append (a b : string) :
  String.length (a ++ b) = String.length a + String.length b.
Proof. induction a as [|x a IH]; simpl; [reflexivity | now rewrite IH]. Qed.

Lemma contains_append (c : ascii) (a b : string) :
  contains c (a ++ b) = contains c a || contains c b.
Proof.
  induction a as [|x a IH]; simpl; [reflexivity|].
  rewrite IH. now rewrite orb_assoc.
Qed.

(** [cut] finds the first separator: the text before it is free of it. *)
Lemma cut_Some (sep : ascii) (s before after : string) :
  cut sep s = Some (before, after) ->
  s = before ++ String sep after /\ contains sep before = false.
Proof.
  revert before after.
  induction s as [|c s IH]; simpl; intros before after H; [discriminate|].
  destruct (Ascii.eqb_spec c sep) as [->|Hne].
  - inversion H; subst. simpl. auto.
  - destruct (cut sep s) as [[x y]|] eqn:E; [|discriminate].
    inversion H; subst. destruct (IH x after eq_refl) as [-> Hx].
    simpl. split; [reflexivity|].
    rewrite Hx. apply Ascii.eqb_neq in Hne. now rewrite Hne.
Qed.

Lemma cut_None (sep : ascii) (s : string) :
  cut sep s = None <-> contains sep s = false.
Proof.
  induction s as [|c s IH]; simpl; [tauto|].
  destruct (Ascii.eqb c sep); simpl.
  - split; discriminate.
  - destruct (cut sep s) as [[x y]|].
    + split; [discriminate|]. intros H. apply IH in H. discriminate.
    + tauto.
Qed.

Lemma cut_first (sep : ascii) (before after : string) :
  contains sep before = false ->
  cut sep (before ++ String sep after) = Some (before, after).
Proof.
  induction before as [|c b IH]; simpl; intros H.
  - now rewrite Ascii.eqb_refl.
  - apply orb_false_iff in H as [Hc Hb]. rewrite Hc, (IH Hb). reflexivity.
Qed.

Lemma hasPrefix_append (a b : string) : hasPrefix a (a ++ b) = true.
Proof.
  induction a as [|c a IH]; simpl; [reflexivity|].
  now rewrite Ascii.eqb_refl, IH.
Qed.

Lemma Contains_append (a s b : string) : Contains (a ++ s ++ b) s = true.
Proof.
  induction a as [|c a IH].
  - simpl. destruct (s ++ b) eqn:E; simpl; rewrite <- ?E;
      rewrite hasPrefix_append; reflexivity.
  - simpl. rewrite IH. apply orb_true_r.
Qed.

(** ** The parser *)

Lemma SplitN_2 (s : string) (sep : ascii) :
  SplitN s sep 2 =
    match cut sep s with
    | None => [s]
    | Some (before, after) => [before; after]
    end.
Proof. simpl. destruct (cut sep s) as [[x y]|]; reflexivity. Qed.

(** One edit string: it parses when, and only when, it is [accepted],
    and the split is at the first [=] and, before it, the first [@]. *)
Lemma parseModification_spec (s : string) :
  match parseModification s with
  | inl m =>
      accepted s /\
      s = path m ++ "@" ++ attribute m ++ "=" ++ value m /\
      contains "@" (path m) = false /\
      contains "=" (path m) = false /\
      contains "=" (attribute m) = false
  | inr err => ~ accepted s /\ err = invalidMod s
  end.
Proof.
  unfold parseModification, accepted, beforeFirst.
  rewrite SplitN_2.
  destruct (cut "=" s) as [[l v]|] eqn:E1.
  - cbn [nth]. rewrite SplitN_2.
    apply cut_Some in E1 as [-> Hl].
    destruct (cut "@" l) as [[p a]|] eqn:E2.
    + cbn. apply cut_Some in E2 as [-> Hp].
      rewrite contains_append in Hl. apply orb_false_iff in Hl as [Hp' Ha].
      simpl in Ha.
      repeat split; auto.
      * rewrite contains_append. simpl. apply orb_true_r.
      * rewrite contains_append. simpl. apply orb_true_r.
      * rewrite !append_assoc. reflexivity.
    + cbn. split; [|reflexivity]. intros [_ H].
      apply cut_None in E2. congruence.
  - cbn. split; [|reflexivity]. intros [H _].
    apply cut_None in E1. congruence.
Qed.

Lemma accepted_dec (s : string) : {accepted s} + {~ accepted s}.
Proof.
  unfold accepted.
  destruct (contains "=" s); destruct (contains "@" (beforeFirst "=" s));
    (left; split; reflexivity) || (right; intros [? ?]; discriminate).
Qed.

Lemma parseModifications_spec (modStrings : list string) :
  match parseModifications modStrings with
  | inl ms =>
      Forall accepted modStrings /\
      List.length ms = List.length modStrings
  | inr err =>
      exists pre bad post,
        modStrings = (pre ++ bad :: post)%list /\
        Forall accepted pre /\ ~ accepted bad /\ err = invalidMod bad
  end.
Proof.
  induction modStrings as [|s rest IH]; simpl.
  - split; [constructor | reflexivity].
  - pose proof (parseModification_spec s) as Hs.
    destruct (parseModification s) as [m|err].
    + destruct Hs as [Hacc _].
      destruct (parseModifications rest) as [ms|err].
      * destruct IH as [Hall Hlen]. split; [constructor; assumption|].
        simpl. now rewrite Hlen.
      * destruct IH as (pre & bad & post & -> & Hpre & Hbad & ->).
        exists (s :: pre), bad, post. repeat split; auto.
    + destruct Hs as [Hbad ->].
      exists [], s, rest. repeat split; auto.
Qed.

(** A string of the form PATH@ATTR=VALUE parses to its three parts when
    PATH holds neither [@] nor [=] and ATTR holds no [=]. *)
Lemma parseModification_form (p a v : string) :
  contains "@" p = false -> contains "=" p = false ->
  contains "=" a = false ->
  parseModification (p ++ "@" ++ a ++ "=" ++ v)
  = inl {| path := p; attribute := a; value := v |}.
Proof.
  intros Hp1 Hp2 Ha.
  unfold parseModification. rewrite SplitN_2.
  replace (p ++ "@" ++ a ++ "=" ++ v) with ((p ++ "@" ++ a) ++ String "=" v)
    by (rewrite !append_assoc; reflexivity).
  rewrite cut_first.
  2:{ rewrite contains_append. simpl. rewrite Hp2, Ha. reflexivity. }
  cbn [nth]. rewrite SplitN_2.
  change (p ++ "@" ++ a) with (p ++ String "@" a).
  rewrite cut_first by assumption. reflexivity.
Qed.

Lemma invalidMod_verbatim (s : string) : Contains (invalidMod s) s = true.
Proof.
  unfold invalidMod.
  change ("Invalid mod " ++ byte dquote ++ s ++ byte dquote
            ++ ": expected syntax /xml/path@attr=newValue")
    with (("Invalid mod " ++ byte dquote) ++ s ++ byte dquote
            ++ ": expected syntax /xml/path@attr=newValue").
  apply Contains_append.
Qed.

Lemma path_nonempty (p l : string) : (p ++ "/" ++ l =? "") = false.
Proof. destruct p; reflexivity. Qed.

(** ** Modifications on one start tag *)

Lemma applyModifications_app (ms1 ms2 : list modification) (cur : string)
    (attr : list Attr) :
  applyModifications (ms1 ++ ms2)%list cur attr
  = applyModifications ms2 cur (applyModifications ms1 cur attr).
Proof. unfold applyModifications. apply fold_left_app. Qed.

Lemma applyModifications_cons (m : modification) (ms : list modification)
    (cur : string) (attr : list Attr) :
  applyModifications (m :: ms) cur attr
  = applyModifications ms cur
      (if cur =? path m then setValue m attr else attr).
Proof. reflexivity. Qed.

(** A later [setValue] for the same attribute name wipes an earlier one. *)
Lemma setValue_setValue_same (m1 m2 : modification) (attr : list Attr) :
  attribute m1 = attribute m2 ->
  setValue m2 (setValue m1 attr) = setValue m2 attr.
Proof.
  intros E. unfold setValue. rewrite map_map. apply map_ext. intros a.
  destruct (Local (AttrName a) =? attribute m1) eqn:E1; [|reflexivity].
  cbn. rewrite <- E, E1. reflexivity.
Qed.

(** [setValue] for different attribute names commute. *)
Lemma setValue_comm (m1 m2 : modification) (attr : list Attr) :
  attribute m1 <> attribute m2 ->
  setValue m2 (setValue m1 attr) = setValue m1 (setValue m2 attr).
Proof.
  intros N. unfold setValue. rewrite !map_map. apply map_ext. intros a.
  destruct (String.eqb_spec (Local (AttrName a)) (attribute m1)) as [E1|E1];
    destruct (String.eqb_spec (Local (AttrName a)) (attribute m2)) as [E2|E2];
    cbn;
    repeat match goal with
      | |- context [?x =? ?y] => destruct (String.eqb_spec x y)
      end; congruence.
Qed.

Lemma setValue_idem (m : modification) (attr : list Attr) :
  setValue m (setValue m attr) = setValue m attr.
Proof. now apply setValue_setValue_same. Qed.

(** The names of the attributes never change. *)
Lemma setValue_names (m : modification) (attr : list Attr) :
  map AttrName (setValue m attr) = map AttrName attr.
Proof.
  unfold setValue. rewrite map_map. apply map_ext. intros a.
  destruct (Local (AttrName a) =? attribute m); reflexivity.
Qed.

Lemma applyModifications_names (ms : list modification) (cur : string) :
  forall attr, map AttrName (applyModifications ms cur attr) = map AttrName attr.
Proof.
  induction ms as [|m ms IH]; intros attr; [reflexivity|].
  rewrite applyModifications_cons, IH.
  destruct (cur =? path m); [apply setValue_names | reflexivity].
Qed.

(** An earlier [setValue] is wiped by the modifications that follow when
    one of them sets the same attribute at the same path. *)
Lemma applyModifications_absorb (ms : list modification)
    (m1 m2 : modification) (ms3 : list modification) (cur : string)
    (attr : list Attr) :
  path m1 = path m2 -> attribute m1 = attribute m2 ->
  applyModifications (ms ++ m2 :: ms3)%list cur (setValue m1 attr)
  = applyModifications (ms ++ m2 :: ms3)%list cur
      (if cur =? path m1 then attr else setValue m1 attr).
Proof.
  intros Ep Ea. destruct (cur =? path m1) eqn:Ecur; [|reflexivity].
  revert attr. induction ms as [|m ms IH]; intros attr.
  - cbn [app]. rewrite !applyModifications_cons, <- Ep, Ecur.
    now rewrite setValue_setValue_same.
  - cbn [app]. rewrite !applyModifications_cons.
    destruct (cur =? path m); [|apply IH].
    destruct (string_dec (attribute m1) (attribute m)) as [E|N].
    + now rewrite setValue_setValue_same.
    + rewrite setValue_comm by assumption. apply IH.
Qed.

(** Dropping a modification that a later one with the same path and
    attribute follows changes nothing on any start tag. *)
Lemma applyModifications_overwritten (ms1 ms2 ms3 : list modification)
    (m1 m2 : modification) (cur : string) (attr : list Attr) :
  path m1 = path m2 -> attribute m1 = attribute m2 ->
  applyModifications (ms1 ++ m1 :: ms2 ++ m2 :: ms3)%list cur attr
  = applyModifications (ms1 ++ ms2 ++ m2 :: ms3)%list cur attr.
Proof.
  intros Ep Ea.
  rewrite !applyModifications_app with (ms1 := ms1).
  rewrite applyModifications_cons.
  destruct (cur =? path m1) eqn:Ecur; [|reflexivity].
  rewrite applyModifications_absorb by assumption.
  now rewrite Ecur.
Qed.

(** The modification that comes last for a path and an attribute name
    decides the value. *)
Lemma applyModifications_last (ms1 ms2 : list modification)
    (m : modification) (attr : list Attr) :
  Forall (fun m' => ~ (path m' = path m /\ attribute m' = attribute m)) ms2 ->
  applyModifications (ms1 ++ m :: ms2)%list (path m) attr
  = setValue m (applyModifications (ms1 ++ ms2)%list (path m) attr).
Proof.
  intros H.
  rewrite !applyModifications_app with (ms1 := ms1).
  rewrite applyModifications_cons, String.eqb_refl.
  generalize (applyModifications ms1 (path m) attr). clear attr.
  induction H as [|m' ms2 Hm' H IH]; intros attr; [reflexivity|].
  rewrite !applyModifications_cons.
  destruct (String.eqb_spec (path m) (path m')) as [E|N]; [|apply IH].
  rewrite setValue_comm by (intros E'; apply Hm'; split; congruence).
  apply IH.
Qed.

Lemma setValue_Forall (m : modification) (attr : list Attr) :
  Forall (fun a => Local (AttrName a) = attribute m -> Value a = value m)
    (setValue m attr).
Proof.
  unfold setValue. apply Forall_map, Forall_forall. intros a _.
  destruct (String.eqb_spec (Local (AttrName a)) (attribute m));
    cbn; intros; congruence.
Qed.

(** Attribute by attribute: the ones with the name get the value, the
    others are kept. *)
Lemma setValue_nth (m : modification) (attr : list Attr) (i : nat) (a : Attr) :
  nth_error attr i = Some a ->
  nth_error (setValue m attr) i
  = Some (if Local (AttrName a) =? attribute m
          then {| AttrName := AttrName a; Value := value m |} else a).
Proof.
  intros H. unfold setValue. rewrite nth_error_map, H. reflexivity.
Qed.

(** ** The loop depends on the modifications through their effect on
    start tags only *)

Section Ext.
Context {lib : XmlLibrary}.

Lemma step_ext (ms ms' : list modification) (st : state) (tok : Token) :
  (forall cur attr,
      applyModifications ms cur attr = applyModifications ms' cur attr) ->
  step ms st tok = step ms' st tok.
Proof.
  intros H. destruct tok; try reflexivity.
  unfold step. now rewrite H.
Qed.

Lemma loop_ext (ms ms' : list modification) (toks : list Token) :
  (forall cur attr,
      applyModifications ms cur attr = applyModifications ms' cur attr) ->
  forall st, loop ms st toks = loop ms' st toks.
Proof.
  intros H. induction toks as [|tok rest IH]; intros st; [reflexivity|].
  simpl. rewrite (step_ext ms ms') by assumption.
  destruct (step ms' st tok); [apply IH | reflexivity].
Qed.

Lemma loop_app ms (a b : list Token) :
  forall st,
    loop ms st (a ++ b)
    = match loop ms st a with
      | inl st' => loop ms st' b
      | inr r => inr r
      end.
Proof.
  induction a as [|t a IH]; intros st; [reflexivity|].
  cbn [app loop]. destruct (step ms st t); [apply IH | reflexivity].
Qed.

Lemma run_ext (ms ms' : list modification) (d : Decoder) :
  (forall cur attr,
      applyModifications ms cur attr = applyModifications ms' cur attr) ->
  run d ms = run d ms'.
Proof. intros H. unfold run. now rewrite (loop_ext ms ms'). Qed.

(** A start tag goes through the loop as the tag that carries the
    modified attributes would without modifications. *)
Lemma step_start_edited (ms : list modification) (st : state)
    (name : Name) (attr : list Attr) :
  step ms st (StartElement name attr)
  = step [] st
      (StartElement name
         (applyModifications ms (pathBuf st ++ "/" ++ Local name) attr)).
Proof. reflexivity. Qed.
End Ext.

(** ** How the loop ends early *)

Section EarlyEnd.
Context {lib : XmlLibrary}.

Lemma step_abort ms st tok r :
  step ms st tok = inr r ->
  (exists err, r = Failed err) \/ (exists p, r = Panicked p).
Proof.
  unfold step. intros H.
  destruct tok; cbv zeta in H; break_match H; inversion H; subst; eauto.
Qed.

Lemma loop_abort ms toks : forall st r,
  loop ms st toks = inr r ->
  (exists err, r = Failed err) \/ (exists p, r = Panicked p).
Proof.
  induction toks as [|tok rest IH]; intros st r H; [discriminate|].
  simpl in H. destruct (step ms st tok) eqn:E.
  - eapply IH; eassumption.
  - inversion H; subst. eapply step_abort; eassumption.
Qed.
End EarlyEnd.

(** ** The engine on edited tokens *)

Lemma applyModifications_map (ms : list modification) (cur : string) :
  forall attr, applyModifications ms cur attr = map (editAttr ms cur) attr.
Proof.
  induction ms as [|m ms IH]; intros attr.
  - cbn. now rewrite map_id.
  - rewrite applyModifications_cons, IH.
    destruct (cur =? path m) eqn:E.
    + unfold setValue. rewrite map_map. apply map_ext. intros a.
      unfold editAttr. cbn [fold_left]. now rewrite E.
    + apply map_ext. intros a. unfold editAttr. cbn [fold_left].
      now rewrite E.
Qed.

Lemma editAttr_name (ms : list modification) (cur : string) :
  forall a, AttrName (editAttr ms cur a) = AttrName a.
Proof.
  unfold editAttr.
  induction ms as [|m ms IH]; intros a; cbn [fold_left]; [reflexivity|].
  rewrite IH. destruct (_ && _); reflexivity.
Qed.

Lemma editAttr_snoc (ms : list modification) (m : modification)
    (cur : string) (a : Attr) :
  editAttr (ms ++ [m]) cur a
  = let b := editAttr ms cur a in
    if (cur =? path m) && (Local (AttrName b) =? attribute m)
    then {| AttrName := AttrName b; Value := value m |} else b.
Proof. unfold editAttr. now rewrite fold_left_app. Qed.

Lemma editAttr_idem (ms : list modification) (cur : string) :
  forall a, editAttr ms cur (editAttr ms cur a) = editAttr ms cur a.
Proof.
  induction ms as [|m ms IH] using rev_ind; intros a; [reflexivity|].
  rewrite !editAttr_snoc. cbv zeta.
  destruct ((cur =? path m) && (Local (AttrName (editAttr ms cur a)) =? attribute m))
    eqn:E.
  - rewrite editAttr_name. cbn [AttrName].
    rewrite editAttr_name in E |- *. rewrite E. reflexivity.
  - rewrite IH, E. reflexivity.
Qed.

Lemma applyModifications_idem (ms : list modification) (cur : string)
    (attr : list Attr) :
  applyModifications ms cur (applyModifications ms cur attr)
  = applyModifications ms cur attr.
Proof.
  rewrite !applyModifications_map, map_map. apply map_ext.
  apply editAttr_idem.
Qed.

(** A modification changes nothing at a path that is not its own. *)
Lemma applyModifications_other_path (ms1 ms2 : list modification)
    (m : modification) (cur : string) (attr : list Attr) :
  cur <> path m ->
  applyModifications (ms1 ++ m :: ms2) cur attr
  = applyModifications (ms1 ++ ms2) cur attr.
Proof.
  intros N. rewrite !applyModifications_app with (ms1 := ms1).
  rewrite applyModifications_cons.
  apply String.eqb_neq in N. now rewrite N.
Qed.

Lemma pathAfter_edited_start (name : Name) (attr attr' : list Attr) (p : string) :
  pathAfter p (StartElement name attr) = pathAfter p (StartElement name attr').
Proof. reflexivity. Qed.

Lemma edited_idem (ms : list modification) (toks : list Token) :
  forall p, edited ms p (edited ms p toks) = edited ms p toks.
Proof.
  induction toks as [|tok rest IH]; intros p; [reflexivity|].
  destruct tok; cbn [edited pathAfter]; rewrite ?IH; try reflexivity.
  now rewrite applyModifications_idem.
Qed.

Lemma paths_app (a b : list Token) :
  forall p, paths p (a ++ b) = (paths p a ++ paths (fold_left pathAfter a p) b)%list.
Proof.
  induction a as [|tok a IH]; intros p; [reflexivity|].
  destruct tok; cbn [paths app fold_left]; rewrite IH; reflexivity.
Qed.

Lemma edited_app (ms : list modification) (a b : list Token) :
  forall p,
    edited ms p (a ++ b)
    = (edited ms p a ++ edited ms (fold_left pathAfter a p) b)%list.
Proof.
  induction a as [|tok a IH]; intros p; [reflexivity|].
  destruct tok; cbn [edited app fold_left pathAfter]; rewrite IH; reflexivity.
Qed.

(** Where no start tag stands at the path of [m], [m] edits nothing. *)
Lemma edited_other_paths (ms1 ms2 : list modification) (m : modification)
    (toks : list Token) :
  forall p,
    ~ In (path m) (paths p toks) ->
    edited (ms1 ++ m :: ms2) p toks = edited (ms1 ++ ms2) p toks.
Proof.
  induction toks as [|tok rest IH]; intros p H; [reflexivity|].
  destruct tok; cbn [edited paths pathAfter] in *;
    try (rewrite IH by assumption; reflexivity).
  rewrite IH by (intros F; apply H; now right).
  rewrite applyModifications_other_path; [reflexivity|].
  intros E. apply H. now left.
Qed.

Section Bridge.
Context {lib : XmlLibrary}.

(** The path variable follows [pathAfter]. *)
Lemma step_pathBuf ms st tok st1 :
  step ms st tok = inl st1 -> pathBuf st1 = pathAfter (pathBuf st) tok.
Proof.
  unfold step. intros H.
  destruct tok; cbv zeta in H; break_match H;
    inversion H; subst; cbn; try reflexivity;
    unfold popPath;
    match goal with E : Truncate _ _ = Some _ |- _ => now rewrite E end.
Qed.

Lemma step_edited ms st tok :
  step ms st tok
  = step [] st (match tok with
                | StartElement name attr =>
                    StartElement name
                      (applyModifications ms (pathBuf st ++ "/" ++ Local name)
                         attr)
                | _ => tok
                end).
Proof. destruct tok; reflexivity. Qed.

Lemma loop_edited ms toks :
  forall st, loop ms st toks = loop [] st (edited ms (pathBuf st) toks).
Proof.
  induction toks as [|tok rest IH]; intros st; [reflexivity|].
  cbn [loop]. rewrite step_edited.
  destruct tok; cbn [edited loop];
    match goal with
    | |- match ?x with _ => _ end = _ => destruct x as [st1|r] eqn:E
    end; try reflexivity;
    rewrite IH; apply step_pathBuf in E; rewrite E; reflexivity.
Qed.

Lemma run_edited ms (d : Decoder) :
  run d ms
  = run {| tokens := edited ms "" (tokens d); stop := stop d |} [].
Proof. unfold run. cbn [tokens stop]. now rewrite loop_edited. Qed.

Lemma run_Returned_EOF (d : Decoder) ms buf :
  run d ms = Returned buf -> stop d = EOF.
Proof.
  unfold run. destruct (loop ms initial (tokens d)) as [st|r] eqn:E.
  - destruct (stop d); [reflexivity | discriminate].
  - intros ->. destruct (loop_abort _ _ _ _ E) as [[e H]|[p H]]; discriminate.
Qed.
End Bridge.

(** [legacyFree] by computation. *)
Lemma legacyFree_check (p : string) (toks : list Token) :
  forallb (fun q => negb (q =? legacyPath)) (paths p toks) = true ->
  legacyFree p toks.
Proof.
  unfold legacyFree. intros H F. rewrite forallb_forall in H.
  specialize (H _ F). rewrite String.eqb_refl in H. discriminate H.
Qed.

(** Under [legacyFree] nothing is dropped. *)
Lemma handed_legacyFree (ms : list modification) (toks : list Token) :
  forall p n,
    legacyFree p toks ->
    handed ms {| dPath := p; dSkip := false; dPluginNo := n |} toks
    = edited ms p toks.
Proof.
  unfold legacyFree.
  induction toks as [|tok rest IH]; intros p n H; [reflexivity|].
  destruct tok; cbn [handed edited paths pathAfter dPath dSkip dPluginNo] in *;
    try (rewrite IH by assumption; reflexivity).
  - destruct (String.eqb_spec (p ++ "/" ++ Local name) legacyPath) as [E|N].
    + exfalso. apply H. now left.
    + cbv zeta. rewrite IH by (intros F; apply H; now right). reflexivity.
  - destruct (p =? legacyPath); rewrite IH by assumption; reflexivity.
Qed.

(** ** The plugin counter *)

Lemma wrapInt_small (z : Z) : (0 <= z < 2 ^ 63)%Z -> wrapInt z = z.
Proof.
  intros H. unfold wrapInt.
  rewrite Z.mod_small by lia. lia.
Qed.

Section Counter.
Context {lib : XmlLibrary}.

(** What one round does to the counter and to the flag. *)
Lemma step_counter ms st tok st1 :
  step ms st tok = inl st1 ->
  match tok with
  | StartElement name attr =>
      if pathBuf st ++ "/" ++ Local name =? legacyPath
      then pluginNo st1 = wrapInt (pluginNo st + 1)
           /\ skip st1 = ((pluginNo st =? 0)%Z || (pluginNo st =? 1)%Z)
      else pluginNo st1 = pluginNo st /\ skip st1 = skip st
  | EndElement _ =>
      pluginNo st1 = pluginNo st
      /\ skip st1 = (if pathBuf st =? legacyPath then false else skip st)
  | _ => pluginNo st1 = pluginNo st /\ skip st1 = skip st
  end.
Proof.
  unfold step. intros H.
  destruct tok; cbv zeta in H;
    [ destruct (pathBuf st ++ "/" ++ Local name =? legacyPath) eqn:Eh
    | .. ];
    break_match H; inversion H; subst; cbn; auto;
    destruct (pathBuf st =? legacyPath); auto; congruence.
Qed.

(** A round that leaves the flag set, and the round of an end tag
    that found it set, write nothing. *)
Lemma step_dropped ms st tok st1 :
  step ms st tok = inl st1 ->
  (skip st1 = true -> out st1 = out st)
  /\ (skip st = true ->
      (forall name attr, tok <> StartElement name attr) ->
      out st1 = out st).
Proof.
  unfold step. intros H.
  destruct tok; cbv zeta in H;
    [ destruct (pathBuf st ++ "/" ++ Local name =? legacyPath) eqn:Eh
    | .. ];
    break_match H; inversion H; subst; cbn; split; intros Hs; try intros Hn;
    auto; try congruence;
    try (exfalso; eapply Hn; reflexivity);
    destruct (pathBuf st =? legacyPath); congruence.
Qed.

(** A start tag that is not dropped is written with its edited
    attributes. *)
Lemma step_start_written ms st name attr st1 :
  step ms st (StartElement name attr) = inl st1 ->
  skip st1 = false ->
  exists head,
    startHead name (applyModifications ms (pathBuf st1) attr) = Some head
    /\ outbytes st1 = outbytes st ++ head ++ ">".
Proof.
  unfold step, outbytes. cbv zeta. intros H Hs.
  destruct (if pathBuf st ++ "/" ++ Local name =? legacyPath
            then ((pluginNo st =? 0)%Z || (pluginNo st =? 1)%Z)
            else skip st) eqn:E.
  - inversion H; subst. cbn in Hs. congruence.
  - cbn [EncodeToken] in H. unfold writeStart in H.
    destruct (Local name =? ""); [discriminate|].
    destruct (startHead name _) as [head|] eqn:Eh; [|discriminate].
    inversion H; subst. cbn. exists head. split; [assumption|reflexivity].
Qed.

(** The counter holds the number of start tags met at the path of
    the plugins, whatever was closed in between. *)
Lemma loop_counter ms toks :
  forall st st' (k : nat),
    loop ms st toks = inl st' ->
    pluginNo st = Z.of_nat k ->
    (Z.of_nat (k + count_occ string_dec (paths (pathBuf st) toks) legacyPath)
     < 2 ^ 63)%Z ->
    pluginNo st'
    = Z.of_nat (k + count_occ string_dec (paths (pathBuf st) toks) legacyPath)
    /\ pathBuf st' = fold_left pathAfter toks (pathBuf st).
Proof.
  induction toks as [|tok rest IH]; intros st st' k H Hk Hb.
  - inversion H; subst. cbn. rewrite Nat.add_0_r. auto.
  - cbn [loop] in H. destruct (step ms st tok) as [st1|r] eqn:E;
      [|discriminate].
    pose proof (step_pathBuf _ _ _ _ E) as Hp.
    pose proof (step_counter _ _ _ _ E) as Hc.
    cbn [fold_left]. rewrite <- Hp.
    destruct tok; cbn [paths pathAfter] in *;
      try (destruct Hc as [Hc _]; rewrite <- Hp in Hb |- *;
           apply (IH st1 st' k H); [congruence | assumption]).
    rewrite <- Hp in Hb, Hc |- *. cbn [count_occ] in Hb |- *.
    destruct (string_dec (pathBuf st1) legacyPath) as [El|Nl].
    + rewrite El, String.eqb_refl in Hc. destruct Hc as [Hc _].
      rewrite Hk, wrapInt_small in Hc by lia.
      assert (A1 : pluginNo st1 = Z.of_nat (S k)) by lia.
      assert (A2 : (Z.of_nat
                      (S k + count_occ string_dec (paths (pathBuf st1) rest)
                               legacyPath) < 2 ^ 63)%Z) by lia.
      destruct (IH st1 st' (S k) H A1 A2) as [IH1 IH2].
      split; [|assumption]. rewrite IH1. f_equal. lia.
    + apply String.eqb_neq in Nl. rewrite Nl in Hc. destruct Hc as [Hc _].
      apply (IH st1 st' k H); [congruence | assumption].
Qed.
End Counter.

(** ** Buffers *)

Lemma lastByte_snoc (s : string) (c : ascii) :
  lastByte (s ++ byte c) = Some c.
Proof.
  induction s as [|a s IH]; [reflexivity|].
  cbn [append lastByte]. rewrite IH.
  destruct (s ++ byte c) eqn:E; [|reflexivity].
  destruct s; discriminate.
Qed.

Lemma substring_append (a b : string) :
  substring 0 (String.length a) (a ++ b) = a.
Proof.
  induction a as [|c a IH]; cbn.
  - destruct b; reflexivity.
  - now rewrite IH.
Qed.

Lemma Truncate_append (a b : string) :
  Truncate (Z.of_nat (String.length a)) (a ++ b) = Some a.
Proof.
  unfold Truncate. rewrite length_append, Nat2Z.id, substring_append.
  replace (_ || _) with false; [reflexivity|].
  symmetry. apply orb_false_iff. split; apply Z.ltb_ge; lia.
Qed.

Lemma slashes_append (a b : string) :
  slashes (a ++ b) = slashes a + slashes b.
Proof.
  induction a as [|c a IH]; cbn; [reflexivity|]. rewrite IH. lia.
Qed.

Lemma LastIndexByte_none (s : string) :
  slashes s = 0 -> LastIndexByte s "/" = (-1)%Z.
Proof.
  induction s as [|c s IH]; cbn; [reflexivity|].
  destruct (Ascii.eqb c "/"); [discriminate|].
  intros H. rewrite (IH H). reflexivity.
Qed.

(** Line 124 on a path that holds a slash: the path is cut at its last
    slash, which takes one slash away. *)
Lemma Truncate_last_slash (s : string) :
  0 < slashes s ->
  exists q,
    Truncate (LastIndexByte s "/") s = Some q /\ S (slashes q) = slashes s.
Proof.
  induction s as [|c s IH]; cbn [slashes LastIndexByte]; [lia|].
  intros H. destruct (Nat.eq_dec (slashes s) 0) as [E|N].
  - rewrite (LastIndexByte_none s E). cbn [Z.leb Z.compare].
    destruct (Ascii.eqb c "/"); [|lia].
    exists EmptyString. split; [|cbn; lia].
    unfold Truncate. cbn [Z.ltb Z.compare orb Z.to_nat substring].
    replace (Z.of_nat (String.length (String c s)) <? 0)%Z with false
      by (symmetry; apply Z.ltb_ge; lia).
    reflexivity.
  - destruct IH as (q & Hq & Hs); [lia|].
    unfold Truncate in Hq.
    destruct ((LastIndexByte s "/" <? 0)%Z
              || (Z.of_nat (String.length s) <? LastIndexByte s "/")%Z) eqn:B;
      [discriminate|].
    apply orb_false_iff in B as [B1 B2].
    apply Z.ltb_ge in B1, B2. inversion Hq as [Hq'].
    replace (0 <=? LastIndexByte s "/")%Z with true
      by (symmetry; apply Z.leb_le; lia).
    exists (String c (substring 0 (Z.to_nat (LastIndexByte s "/")) s)).
    split.
    + unfold Truncate.
      replace ((LastIndexByte s "/" + 1 <? 0)%Z
               || (Z.of_nat (String.length (String c s))
                   <? LastIndexByte s "/" + 1)%Z) with false.
      * replace (Z.to_nat (LastIndexByte s "/" + 1))
          with (S (Z.to_nat (LastIndexByte s "/"))) by lia.
        reflexivity.
      * symmetry. apply orb_false_iff.
        cbn [String.length]. split; apply Z.ltb_ge; lia.
    + cbn [slashes]. rewrite Hq'. lia.
Qed.

Lemma Name_eqb_eq (a b : Name) : Name_eqb a b = true -> a = b.
Proof.
  unfold Name_eqb. intros H. apply andb_true_iff in H as [H1 H2].
  apply String.eqb_eq in H1, H2. destruct a, b; cbn in *; congruence.
Qed.

Lemma Name_eqb_refl (a : Name) : Name_eqb a a = true.
Proof. unfold Name_eqb. now rewrite !String.eqb_refl. Qed.

(** ** Rounds of the loop that write *)

Section Rounds.
Context {lib : XmlLibrary}.

(** A start tag that is not at the path of the plugins, from a state
    that does not drop. *)
Lemma step_start ms st name attr head :
  skip st = false ->
  pathBuf st ++ "/" ++ Local name <> legacyPath ->
  Local name <> "" ->
  startHead name
    (applyModifications ms (pathBuf st ++ "/" ++ Local name) attr)
  = Some head ->
  step ms st (StartElement name attr)
  = inl {| out := {| w := outbytes st ++ head ++ ">";
                     tags := name :: tags (out st) |};
           previousWasStart := true;
           pathBuf := pathBuf st ++ "/" ++ Local name;
           skip := false;
           pluginNo := pluginNo st |}.
Proof.
  intros Hs Hp Hn Hh. unfold step. cbv zeta.
  apply String.eqb_neq in Hp, Hn. rewrite Hp, Hs.
  cbn [EncodeToken]. unfold writeStart. rewrite Hn, Hh. reflexivity.
Qed.

(** The end tag right after its start tag: lines 129 to 149. *)
Lemma step_end_fused ms st name b top stk :
  skip st = false ->
  previousWasStart st = true ->
  outbytes st = b ++ ">" ->
  tags (out st) = top :: stk ->
  Name_eqb top name = true ->
  Local name <> "" ->
  0 < slashes (pathBuf st) ->
  step ms st (EndElement name)
  = inl {| out := {| w := b ++ "/>"; tags := stk |};
           previousWasStart := false;
           pathBuf := popPath (pathBuf st);
           skip := false;
           pluginNo := pluginNo st |}.
Proof.
  intros Hs Hprev Hb Ht Htop Hn Hsl. unfold step. cbv zeta.
  destruct (Truncate_last_slash _ Hsl) as (q' & Hq & _).
  unfold popPath. rewrite Hq, Hs, Hprev, Hb.
  change (b ++ ">") with (b ++ byte ">"). rewrite lastByte_snoc.
  cbn [Ascii.eqb Bool.eqb negb].
  cbn [EncodeToken]. unfold writeEnd.
  apply String.eqb_neq in Hn. rewrite Hn, Ht.
  pose proof (Name_eqb_eq _ _ Htop) as ->.
  rewrite Hn, Name_eqb_refl. cbn [negb w tags].
  unfold outbytes in Hb. rewrite Hb.
  replace (Z.of_nat (String.length (b ++ byte ">")) - 1)%Z
    with (Z.of_nat (String.length b))
    by (rewrite length_append; cbn; lia).
  rewrite append_assoc, Truncate_append.
  destruct (pathBuf st =? legacyPath); reflexivity.
Qed.

(** An end tag after anything but its start tag. *)
Lemma step_end_plain ms st name top stk :
  skip st = false ->
  previousWasStart st = false ->
  tags (out st) = top :: stk ->
  Name_eqb top name = true ->
  Local name <> "" ->
  0 < slashes (pathBuf st) ->
  step ms st (EndElement name)
  = inl {| out := {| w := outbytes st ++ "</" ++ Local name ++ ">";
                     tags := stk |};
           previousWasStart := false;
           pathBuf := popPath (pathBuf st);
           skip := false;
           pluginNo := pluginNo st |}.
Proof.
  intros Hs Hprev Ht Htop Hn Hsl. unfold step. cbv zeta.
  destruct (Truncate_last_slash _ Hsl) as (q' & Hq & _).
  unfold popPath. rewrite Hq, Hs, Hprev.
  cbn [EncodeToken]. unfold writeEnd.
  apply String.eqb_neq in Hn. rewrite Hn, Ht.
  pose proof (Name_eqb_eq _ _ Htop) as ->.
  rewrite Hn, Name_eqb_refl. cbn [negb].
  destruct (pathBuf st =? legacyPath); reflexivity.
Qed.

(** A token that is neither a start nor an end tag. *)
Lemma step_other ms st tok out1 :
  skip st = false ->
  (forall name attr, tok <> StartElement name attr) ->
  (forall name, tok <> EndElement name) ->
  EncodeToken (out st) tok = inl out1 ->
  step ms st tok
  = inl {| out := out1; previousWasStart := false;
           pathBuf := pathBuf st; skip := false;
           pluginNo := pluginNo st |}.
Proof.
  intros Hs N1 N2 He.
  destruct tok; try (exfalso; eapply N1; reflexivity);
    try (exfalso; eapply N2; reflexivity);
    unfold step; rewrite Hs, He; reflexivity.
Qed.

(** What the printer writes for such a token, under the tests of
    [balanced]. *)
Lemma EncodeToken_other o tok stk rest :
  (forall name attr, tok <> StartElement name attr) ->
  (forall name, tok <> EndElement name) ->
  balanced stk (tok :: rest) = true ->
  EncodeToken o tok = inl {| w := w o ++ render tok; tags := tags o |}
  /\ balanced stk rest = true.
Proof.
  intros N1 N2 H.
  destruct tok; try (exfalso; eapply N1; reflexivity);
    try (exfalso; eapply N2; reflexivity);
    cbn [balanced] in H; cbn [EncodeToken render].
  - auto.
  - apply andb_true_iff in H as [H1 H2]. apply negb_true_iff in H1.
    rewrite H1. auto.
  - apply andb_true_iff in H as [H H4].
    apply andb_true_iff in H as [H H3].
    apply andb_true_iff in H as [H1 H2].
    apply negb_true_iff in H1, H3. rewrite H1, H2, H3. cbn. auto.
  - apply andb_true_iff in H as [H1 H2]. rewrite H1. cbn. auto.
Qed.
End Rounds.

(** ** The text of a document without dropped elements *)

Section Collapse.
Context {lib : XmlLibrary}.

Lemma collapse_start name attr head rest :
  startHead name attr = Some head ->
  collapse (StartElement name attr :: rest) = head ++ closeTail rest.
Proof.
  intros H. cbn [collapse]. rewrite H.
  destruct rest as [|[] rest]; reflexivity.
Qed.

Lemma collapse_other tok rest :
  (forall name attr, tok <> StartElement name attr) ->
  collapse (tok :: rest) = render tok ++ collapse rest.
Proof.
  intros N. destruct tok; try reflexivity.
  exfalso. eapply N. reflexivity.
Qed.

Lemma closeTail_not_end toks :
  (forall name rest, toks <> EndElement name :: rest) ->
  closeTail toks = ">" ++ collapse toks.
Proof.
  intros N. destruct toks as [|[] rest]; try reflexivity.
  exfalso. eapply N. reflexivity.
Qed.

(** The loop over tokens the printer accepts, none of them at the
    path of the plugins: the buffer grows by the collapsed text. *)
Lemma loop_collapse toks :
  forall st,
    skip st = false ->
    List.length (tags (out st)) <= slashes (pathBuf st) ->
    balanced (tags (out st)) toks = true ->
    legacyFree (pathBuf st) toks ->
    (previousWasStart st = false ->
     exists st',
       loop [] st toks = inl st'
       /\ outbytes st' = outbytes st ++ collapse toks)
    /\ (previousWasStart st = true ->
        forall b, outbytes st = b ++ ">" ->
        exists st',
          loop [] st toks = inl st'
          /\ outbytes st' = b ++ closeTail toks).
Proof.
  unfold legacyFree.
  induction toks as [|tok rest IH]; intros st Hs Hd Hb Hf.
  - split.
    + intros _. exists st. cbn. now rewrite append_nil_r.
    + intros _ b E. exists st. cbn. split; [reflexivity|].
      now rewrite E.
  - assert (Hother :
      (forall name attr, tok <> StartElement name attr) ->
      (forall name, tok <> EndElement name) ->
      (previousWasStart st = false ->
       exists st',
         loop [] st (tok :: rest) = inl st'
         /\ outbytes st' = outbytes st ++ collapse (tok :: rest))
      /\ (previousWasStart st = true ->
          forall b, outbytes st = b ++ ">" ->
          exists st',
            loop [] st (tok :: rest) = inl st'
            /\ outbytes st' = b ++ closeTail (tok :: rest))).
    { intros N1 N2.
      destruct (EncodeToken_other (out st) tok _ rest N1 N2 Hb) as [He Hb'].
      assert (Hstep := step_other [] st tok _ Hs N1 N2 He).
      assert (Hp : paths (pathBuf st) (tok :: rest) = paths (pathBuf st) rest).
      { destruct tok; try reflexivity;
          [exfalso; eapply N1 | exfalso; eapply N2]; reflexivity. }
      rewrite Hp in Hf.
      set (st1 := {| out := {| w := w (out st) ++ render tok;
                               tags := tags (out st) |};
                     previousWasStart := false; pathBuf := pathBuf st;
                     skip := false; pluginNo := pluginNo st |}) in *.
      destruct (IH st1) as [IH1 _]; cbn [skip out tags pathBuf st1];
        [reflexivity | assumption | assumption | assumption |].
      destruct (IH1 eq_refl) as (st' & Hl & Ho).
      rewrite (collapse_other tok rest N1).
      split.
      - intros _. exists st'. cbn [loop]. rewrite Hstep.
        split; [assumption|]. rewrite Ho. unfold outbytes. cbn [st1 out w].
        now rewrite append_assoc.
      - intros _ b E. exists st'. cbn [loop]. rewrite Hstep.
        split; [assumption|]. rewrite Ho. unfold outbytes at 1.
        cbn [st1 out w]. unfold outbytes in E. rewrite E.
        rewrite closeTail_not_end
          by (intros ? ? F; inversion F; subst; eapply N2; reflexivity).
        rewrite (collapse_other tok rest N1). now rewrite !append_assoc. }
    destruct tok;
      try (apply Hother; intros; discriminate); clear Hother.
    + (* start tag *)
      cbn [balanced] in Hb.
      apply andb_true_iff in Hb as [Hb Hb3].
      apply andb_true_iff in Hb as [Hb1 Hb2].
      apply negb_true_iff, String.eqb_neq in Hb1.
      destruct (startHead name attr) as [head|] eqn:Eh; [|discriminate].
      cbn [paths pathAfter] in Hf.
      assert (Hstep := step_start [] st name attr head Hs
                         (fun E => Hf (or_introl E)) Hb1 Eh).
      set (st1 := {| out := {| w := outbytes st ++ head ++ ">";
                               tags := name :: tags (out st) |};
                     previousWasStart := true;
                     pathBuf := pathBuf st ++ "/" ++ Local name;
                     skip := false; pluginNo := pluginNo st |}) in *.
      destruct (IH st1) as [_ IH2]; cbn [skip out tags pathBuf st1];
        [reflexivity | | assumption | intros F; apply Hf; right; exact F |].
      { rewrite !slashes_append. cbn [List.length slashes]. cbn. lia. }
      destruct (IH2 eq_refl (outbytes st ++ head)) as (st' & Hl & Ho).
      { unfold outbytes. cbn. now rewrite !append_assoc. }
      rewrite (collapse_start _ _ _ _ Eh).
      split.
      * intros _. exists st'. cbn [loop]. rewrite Hstep.
        split; [assumption|]. now rewrite Ho, append_assoc.
      * intros _ b E. exists st'. cbn [loop]. rewrite Hstep.
        split; [assumption|].
        rewrite Ho, E.
        rewrite (closeTail_not_end (StartElement name attr :: rest))
          by (intros ? ? F; discriminate F).
        rewrite (collapse_start _ _ _ _ Eh). now rewrite !append_assoc.
    + (* end tag *)
      cbn [balanced] in Hb.
      destruct (tags (out st)) as [|top stk] eqn:Et; [discriminate|].
      apply andb_true_iff in Hb as [Hb Hb3].
      apply andb_true_iff in Hb as [Hb1 Hb2].
      apply negb_true_iff, String.eqb_neq in Hb1.
      cbn [paths pathAfter] in Hf. cbn [List.length] in Hd.
      assert (Hsl : 0 < slashes (pathBuf st)) by lia.
      destruct (Truncate_last_slash _ Hsl) as (q' & Hq & Hq').
      assert (Hpop : popPath (pathBuf st) = q') by (unfold popPath; now rewrite Hq).
      split.
      * intros Hprev.
        assert (Hstep := step_end_plain [] st name top stk Hs Hprev Et Hb2 Hb1 Hsl).
        set (st1 := {| out := {| w := outbytes st ++ "</" ++ Local name ++ ">";
                                 tags := stk |};
                       previousWasStart := false;
                       pathBuf := popPath (pathBuf st);
                       skip := false; pluginNo := pluginNo st |}) in *.
        destruct (IH st1) as [IH1 _]; cbn [skip out tags pathBuf st1];
          [reflexivity | rewrite Hpop; lia | assumption | assumption |].
        destruct (IH1 eq_refl) as (st' & Hl & Ho).
        exists st'. cbn [loop]. rewrite Hstep. split; [assumption|].
        rewrite Ho. unfold outbytes at 1. cbn [st1 out w collapse render].
        now rewrite !append_assoc.
      * intros Hprev b E.
        assert (Hstep := step_end_fused [] st name b top stk Hs Hprev E Et Hb2 Hb1 Hsl).
        set (st1 := {| out := {| w := b ++ "/>"; tags := stk |};
                       previousWasStart := false;
                       pathBuf := popPath (pathBuf st);
                       skip := false; pluginNo := pluginNo st |}) in *.
        destruct (IH st1) as [IH1 _]; cbn [skip out tags pathBuf st1];
          [reflexivity | rewrite Hpop; lia | assumption | assumption |].
        destruct (IH1 eq_refl) as (st' & Hl & Ho).
        exists st'. cbn [loop]. rewrite Hstep. split; [assumption|].
        rewrite Ho. unfold outbytes at 1. cbn [st1 out w closeTail].
        now rewrite !append_assoc.
Qed.
End Collapse.

Section Documents.
Context {lib : XmlLibrary}.

Lemma loop_balanced (toks : list Token) :
  balanced [] toks = true ->
  legacyFree "" toks ->
  exists st',
    loop [] initial toks = inl st' /\ outbytes st' = collapse toks.
Proof.
  intros Hb Hf.
  destruct (loop_collapse toks initial eq_refl (Nat.le_refl _) Hb Hf)
    as [H _].
  destruct (H eq_refl) as (st' & Hl & Ho). exists st'. now split.
Qed.

Lemma loop_wellFormed (toks : list Token) :
  wellFormed toks = true ->
  legacyFree "" toks ->
  exists st',
    loop [] initial toks = inl st' /\ outbytes st' = collapse toks.
Proof.
  intros Hw Hf.
  destruct toks as [|tok rest]; [now apply loop_balanced|].
  destruct tok; try (now apply loop_balanced).
  cbn [wellFormed] in Hw.
  destruct (target =? "xml") eqn:Et; [|now apply loop_balanced].
  apply andb_true_iff in Hw as [Hw Hb].
  apply andb_true_iff in Hw as [Hn Hi]. apply negb_true_iff in Hi.
  set (st1 := {| out := {| w := render (ProcInst target inst);
                           tags := [] |};
                 previousWasStart := false; pathBuf := "";
                 skip := false; pluginNo := 0 |}).
  assert (Hstep : step [] initial (ProcInst target inst) = inl st1).
  { unfold step. cbn [skip initial out EncodeToken NewEncoder w].
    rewrite Et, Hn, Hi. reflexivity. }
  destruct (loop_collapse rest st1 eq_refl (Nat.le_refl _) Hb)
    as [H _]; [exact Hf|].
  destruct (H eq_refl) as (st' & Hl & Ho).
  exists st'. cbn [loop]. rewrite Hstep. split; [assumption|].
  rewrite Ho. reflexivity.
Qed.

(** A whole document the printer accepts, without plugin elements at
    the dropped path and without modifications: the buffer returned is
    the collapsed text of its tokens. *)
Lemma run_wellFormed (toks : list Token) :
  wellFormed toks = true ->
  legacyFree "" toks ->
  run {| tokens := toks; stop := EOF |} [] = Returned (collapse toks).
Proof.
  intros Hw Hf. unfold run. cbn [tokens stop].
  destruct (loop_wellFormed toks Hw Hf) as (st' & -> & Ho).
  cbn [finish]. now rewrite Ho.
Qed.

Lemma Normalizes_collapse toks input output :
  Normalizes toks input output -> output = collapse toks.
Proof.
  induction 1 as [ | name attr name' rest head x y Hh _ IH
                   | name attr name' rest head x y Hh _ IH
                   | name attr rest head x y Hh Hn _ IH
                   | tok rest x y Hn _ IH ].
  - reflexivity.
  - cbn [collapse]. now rewrite Hh, IH.
  - cbn [collapse]. now rewrite Hh, IH.
  - rewrite (collapse_start _ _ _ _ Hh), closeTail_not_end, IH by assumption.
    reflexivity.
  - now rewrite (collapse_other _ _ Hn), IH.
Qed.

(** A run of tokens that are neither start nor end tags. *)
Lemma loop_others ms mid :
  forall st stk,
    skip st = false ->
    Forall (fun t => (forall n a, t <> StartElement n a)
                     /\ (forall n, t <> EndElement n)) mid ->
    balanced stk mid = true ->
    exists st',
      loop ms st mid = inl st'
      /\ outbytes st' = outbytes st ++ collapse mid
      /\ tags (out st') = tags (out st)
      /\ pathBuf st' = pathBuf st
      /\ skip st' = false
      /\ (mid <> [] -> previousWasStart st' = false).
Proof.
  induction mid as [|tok rest IH]; intros st stk Hs Hall Hb.
  - exists st. cbn. rewrite append_nil_r. repeat split; auto.
    intros F. now contradiction F.
  - inversion Hall as [|? ? [N1 N2] Hrest]; subst.
    destruct (EncodeToken_other (out st) tok stk rest N1 N2 Hb) as [He Hb'].
    assert (Hstep := step_other ms st tok _ Hs N1 N2 He).
    set (st1 := {| out := {| w := w (out st) ++ render tok;
                             tags := tags (out st) |};
                   previousWasStart := false; pathBuf := pathBuf st;
                   skip := false; pluginNo := pluginNo st |}) in *.
    destruct (IH st1 stk eq_refl Hrest Hb')
      as (st' & Hl & Ho & Ht & Hp & Hs' & Hprev).
    exists st'. cbn [loop]. rewrite Hstep.
    split; [assumption|]. split; [|split; [|split; [|split]]]; auto.
    + rewrite Ho, (collapse_other _ _ N1). unfold outbytes.
      cbn [st1 out w]. now rewrite append_assoc.
    + intros _. destruct rest as [|t r].
      * inversion Hl; subst. reflexivity.
      * apply Hprev. discriminate.
Qed.
End Documents.

(** ** Paths cut at their last slash *)

Lemma LastIndexByte_bound (s : string) (c : ascii) :
  (-1 <= LastIndexByte s c < Z.of_nat (String.length s))%Z.
Proof.
  induction s as [|a s IH]; cbn [LastIndexByte String.length]; [lia|].
  destruct (0 <=? LastIndexByte s c)%Z eqn:E.
  - apply Z.leb_le in E. lia.
  - destruct (Ascii.eqb a c); lia.
Qed.

Lemma LastIndexByte_absent (s : string) (c : ascii) :
  contains c s = false -> LastIndexByte s c = (-1)%Z.
Proof.
  induction s as [|a s IH]; cbn [contains LastIndexByte]; [reflexivity|].
  intros H. apply orb_false_iff in H as [H1 H2].
  rewrite (IH H2), H1. reflexivity.
Qed.

Lemma LastIndexByte_app (a b : string) (c : ascii) :
  LastIndexByte (a ++ b) c
  = if (0 <=? LastIndexByte b c)%Z
    then (Z.of_nat (String.length a) + LastIndexByte b c)%Z
    else LastIndexByte a c.
Proof.
  induction a as [|x a IH]; cbn [append LastIndexByte String.length].
  - destruct (0 <=? LastIndexByte b c)%Z eqn:E; [lia|].
    apply Z.leb_gt in E. pose proof (LastIndexByte_bound b c). lia.
  - rewrite IH. destruct (0 <=? LastIndexByte b c)%Z eqn:E.
    + apply Z.leb_le in E.
      replace (0 <=? Z.of_nat (String.length a) + LastIndexByte b c)%Z
        with true by (symmetry; apply Z.leb_le; lia).
      lia.
    + reflexivity.
Qed.

Lemma substring_app_l (a b : string) (n : nat) :
  substring 0 (String.length a + n) (a ++ b) = a ++ substring 0 n b.
Proof.
  induction a as [|x a IH]; cbn [append String.length Nat.add substring].
  - reflexivity.
  - now rewrite IH.
Qed.

Lemma Truncate_app_l (a b q : string) (i : Z) :
  Truncate i b = Some q ->
  Truncate (Z.of_nat (String.length a) + i) (a ++ b) = Some (a ++ q).
Proof.
  unfold Truncate. intros H.
  destruct ((i <? 0)%Z || (Z.of_nat (String.length b) <? i)%Z) eqn:B;
    [discriminate|].
  apply orb_false_iff in B as [B1 B2]. apply Z.ltb_ge in B1, B2.
  injection H as <-.
  replace ((Z.of_nat (String.length a) + i <? 0)%Z
           || (Z.of_nat (String.length (a ++ b))
               <? Z.of_nat (String.length a) + i)%Z) with false.
  - replace (Z.to_nat (Z.of_nat (String.length a) + i))
      with (String.length a + Z.to_nat i) by lia.
    now rewrite substring_app_l.
  - symmetry. apply orb_false_iff. rewrite length_append.
    split; apply Z.ltb_ge; lia.
Qed.

(** Line 124 after an element whose name holds no slash: the path is
    the one before the start tag. *)
Lemma Truncate_child (p n : string) :
  contains "/" n = false ->
  Truncate (LastIndexByte (p ++ "/" ++ n) "/") (p ++ "/" ++ n) = Some p.
Proof.
  intros H. rewrite LastIndexByte_app.
  change (LastIndexByte ("/" ++ n) "/")
    with (if (0 <=? LastIndexByte n "/")%Z
          then (LastIndexByte n "/" + 1)%Z else 0%Z).
  rewrite (LastIndexByte_absent n "/" H). cbn [Z.leb Z.compare].
  rewrite Z.add_0_r. apply Truncate_append.
Qed.

(** Line 124 on a path below [root]: the path stays at or below
    [root]. *)
Lemma Truncate_below (root s0 : string) :
  exists s',
    Truncate (LastIndexByte (root ++ "/" ++ s0) "/") (root ++ "/" ++ s0)
    = Some (root ++ s')
    /\ (s' = "" \/ exists s1, s' = "/" ++ s1).
Proof.
  assert (Hs : 0 < slashes ("/" ++ s0)) by (cbn; lia).
  destruct (Truncate_last_slash ("/" ++ s0) Hs) as (q & Hq & _).
  exists q. split.
  - rewrite LastIndexByte_app.
    replace (0 <=? LastIndexByte ("/" ++ s0) "/")%Z with true.
    + now apply Truncate_app_l.
    + symmetry. apply Z.leb_le. unfold Truncate in Hq.
      destruct (LastIndexByte ("/" ++ s0) "/" <? 0)%Z eqn:E;
        [discriminate|]. now apply Z.ltb_ge in E.
  - unfold Truncate in Hq. break_match Hq; [discriminate|].
    remember (Z.to_nat (LastIndexByte ("/" ++ s0) "/")) as k eqn:Ek.
    clear Ek. injection Hq as <-.
    destruct k as [|k];
      [left; reflexivity | right; eexists; reflexivity].
Qed.

(** ** The depth of the path and of the open elements *)

Section Depth.
Context {lib : XmlLibrary}.

Lemma EncodeToken_tags (o o1 : Encoder) (tok : Token) :
  EncodeToken o tok = inl o1 ->
  match tok with
  | StartElement name _ => tags o1 = name :: tags o
  | EndElement _ => exists top, tags o = top :: tags o1
  | _ => tags o1 = tags o
  end.
Proof.
  destruct tok; cbn [EncodeToken]; unfold writeStart, writeEnd, WriteString;
    intros H; break_match H; try discriminate H;
    injection H as <-; cbn [tags]; try reflexivity.
  eexists. reflexivity.
Qed.

Lemma slashes_legacyPath : slashes legacyPath = 6.
Proof. vm_compute. reflexivity. Qed.

Lemma slashes_popPath_legacyPath : slashes (popPath legacyPath) = 5.
Proof. vm_compute. reflexivity. Qed.

Lemma step_nested_start ms st st1 name attr :
  nested st -> step ms st (StartElement name attr) = inl st1 -> nested st1.
Proof.
  intros [Hd Hk] H. unfold nested.
  pose proof (step_pathBuf _ _ _ _ H) as Hp.
  pose proof (step_counter _ _ _ _ H) as Hc. cbv beta iota in Hc.
  cbn [pathAfter] in Hp.
  assert (Hsl : slashes (pathBuf st1) = slashes (pathBuf st) + 1
                                         + slashes (Local name)).
  { rewrite Hp, !slashes_append. cbn. lia. }
  assert (Ht : if skip st1 then tags (out st1) = tags (out st)
               else tags (out st1) = name :: tags (out st)).
  { unfold step in H. cbv zeta in H. break_match H; try discriminate H;
      injection H as <-; cbn [skip out]; try reflexivity;
      match goal with
      | E : EncodeToken _ _ = inl _ |- _ =>
          apply EncodeToken_tags in E; exact E
      end. }
  destruct (skip st1) eqn:Es.
  - rewrite Ht. split; [lia|]. intros _.
    destruct (pathBuf st ++ "/" ++ Local name =? legacyPath) eqn:Eh.
    + apply String.eqb_eq in Eh. rewrite Eh in Hp. split.
      * rewrite <- Hp. lia.
      * exists "". split; [now rewrite append_nil_r | now left].
    + destruct Hc as [_ Hc]. symmetry in Hc.
      destruct (Hk Hc) as (Hlt & s & Hs & Hform). split; [assumption|].
      exists (s ++ "/" ++ Local name). split.
      * now rewrite Hp, Hs, append_assoc.
      * right. destruct Hform as [-> | [s1 ->]];
           eexists; cbn [append]; reflexivity.
  - rewrite Ht. cbn [List.length]. split; [lia | discriminate].
Qed.

Lemma step_nested_end ms st st1 name :
  nested st -> step ms st (EndElement name) = inl st1 -> nested st1.
Proof.
  intros [Hd Hk] H. unfold nested.
  pose proof (step_pathBuf _ _ _ _ H) as Hp.
  pose proof (step_counter _ _ _ _ H) as Hc. cbv beta iota in Hc.
  assert (Hcases :
    (skip st = true /\ out st1 = out st)
    \/ (skip st = false /\ skip st1 = false
        /\ exists top, tags (out st) = top :: tags (out st1))).
  { clear Hp Hc Hk Hd.
    unfold step in H. cbv zeta in H. break_match H; try discriminate H;
      injection H as <-; cbn [skip out tags];
      first [ left; split; reflexivity
            | right; split; [reflexivity|]; split;
              [ now destruct (pathBuf st =? legacyPath) |];
              match goal with
              | E : EncodeToken _ _ = inl _ |- _ =>
                  apply EncodeToken_tags in E; exact E
              end ]. }
  clear H. cbn [pathAfter] in Hp. destruct Hc as [_ Hc].
  pose proof slashes_legacyPath as HL.
  pose proof slashes_popPath_legacyPath as HP.
  remember legacyPath as root eqn:Hroot. clear Hroot.
  destruct Hcases as [[Hs Ho] | (Hs & Hs1 & top & Ht)].
  - destruct (Hk Hs) as (Hlt & s & Hpath & Hform). rewrite Ho.
    destruct Hform as [-> | [s1 ->]].
    + rewrite append_nil_r in Hpath. rewrite Hpath in Hp, Hc.
      rewrite String.eqb_refl in Hc.
      rewrite Hp, HP. split; [lia | rewrite Hc; discriminate].
    + destruct (Truncate_below root s1) as (s' & Htr & Hform').
      assert (Hp' : pathBuf st1 = root ++ s').
      { rewrite Hp, Hpath. unfold popPath. now rewrite Htr. }
      rewrite Hp', slashes_append.
      split; [lia|]. intros _. split; [lia|].
      exists s'. split; [reflexivity | assumption].
  - rewrite Hs1. split; [|discriminate].
    rewrite Ht in Hd. cbn [List.length] in Hd.
    destruct (Truncate_last_slash (pathBuf st)) as (q & Hq & Hsq); [lia|].
    assert (Hp' : pathBuf st1 = q).
    { rewrite Hp. unfold popPath. now rewrite Hq. }
    rewrite Hp'. lia.
Qed.

Lemma step_nested_other ms st st1 tok :
  (forall name attr, tok <> StartElement name attr) ->
  (forall name, tok <> EndElement name) ->
  nested st -> step ms st tok = inl st1 -> nested st1.
Proof.
  intros N1 N2 [Hd Hk] H. unfold nested.
  pose proof (step_pathBuf _ _ _ _ H) as Hp.
  pose proof (step_counter _ _ _ _ H) as Hc.
  assert (Ht : tags (out st1) = tags (out st)).
  { unfold step in H.
    destruct tok;
      [ exfalso; eapply N1; reflexivity | exfalso; eapply N2; reflexivity
      | .. ];
      break_match H; try discriminate H;
      injection H as <-; cbn [out]; try reflexivity;
      match goal with
      | E : EncodeToken _ _ = inl _ |- _ =>
          apply EncodeToken_tags in E; exact E
      end. }
  assert (Hrest : pathBuf st1 = pathBuf st /\ skip st1 = skip st).
  { destruct tok;
      [ exfalso; eapply N1; reflexivity | exfalso; eapply N2; reflexivity
      | .. ];
      cbn [pathAfter] in Hp; destruct Hc as [_ Hc]; now split. }
  destruct Hrest as [Hp' Hs']. now rewrite Ht, Hp', Hs'.
Qed.

(** Every round keeps the bound. *)
Lemma step_nested ms st tok st1 :
  nested st -> step ms st tok = inl st1 -> nested st1.
Proof.
  destruct tok;
    [ apply step_nested_start | apply step_nested_end
    | apply step_nested_other; intros; discriminate .. ].
Qed.

Lemma loop_nested ms toks :
  forall st st', nested st -> loop ms st toks = inl st' -> nested st'.
Proof.
  induction toks as [|tok rest IH]; intros st st' Hn H; cbn [loop] in H.
  - now injection H as <-.
  - destruct (step ms st tok) as [st1|r] eqn:E; [|discriminate H].
    eapply IH; [|exact H]. eapply step_nested; eassumption.
Qed.

Lemma nested_initial : nested initial.
Proof. split; [cbn; lia | discriminate]. Qed.
End Depth.

(** ** Whole elements *)

Lemma closed_app (a b : list Token) :
  forall d e,
    closed d a = true -> closed (d + e) (a ++ b)%list = closed e b.
Proof.
  induction a as [|tok a IH]; intros d e H.
  - cbn in H. apply Nat.eqb_eq in H. now subst.
  - destruct tok; cbn [closed app] in *;
      try (now apply IH).
    + now apply (IH (S d)).
    + destruct d as [|d]; [discriminate|]. now apply IH.
Qed.

Lemma closed_edited (ms : list modification) (toks : list Token) :
  forall p d, closed d (edited ms p toks) = closed d toks.
Proof.
  induction toks as [|tok rest IH]; intros p d; [reflexivity|].
  destruct tok; cbn [edited closed]; try apply IH.
  destruct d; [reflexivity | apply IH].
Qed.

Section Elements.
Context {lib : XmlLibrary}.

Lemma writeAttrs_names (a1 a2 : list Attr) :
  map AttrName a1 = map AttrName a2 ->
  writeAttrs a1 = None <-> writeAttrs a2 = None.
Proof.
  revert a2. induction a1 as [|x a1 IH]; intros [|y a2] H;
    try discriminate H; [tauto|].
  cbn [map] in H. injection H as Hx Hrest. specialize (IH a2 Hrest).
  cbn [writeAttrs]. unfold writeAttr. rewrite Hx.
  destruct (Local (AttrName y) =? ""), (Space (AttrName y) =? "");
    destruct (writeAttrs a1), (writeAttrs a2);
    split; intros; try reflexivity; try discriminate;
    exfalso; destruct IH as [I1 I2];
    first [now discriminate I1 | now discriminate I2].
Qed.

Lemma startHead_names (name : Name) (a1 a2 : list Attr) :
  map AttrName a1 = map AttrName a2 ->
  match startHead name a1 with Some _ => true | None => false end
  = match startHead name a2 with Some _ => true | None => false end.
Proof.
  intros H. apply writeAttrs_names in H. unfold startHead.
  destruct (writeAttrs a1), (writeAttrs a2); try reflexivity;
    exfalso; destruct H as [H1 H2];
    first [now discriminate H1 | now discriminate H2].
Qed.

Lemma balanced_edited (ms : list modification) (toks : list Token) :
  forall p stk, balanced stk (edited ms p toks) = balanced stk toks.
Proof.
  induction toks as [|tok rest IH]; intros p stk; [reflexivity|].
  destruct tok; cbn [edited balanced]; rewrite ?IH; try reflexivity.
  - rewrite (startHead_names name _ attr)
      by apply applyModifications_names.
    reflexivity.
  - destruct stk; [reflexivity | now rewrite IH].
Qed.

Lemma paths_edited (ms : list modification) (toks : list Token) :
  forall p, paths p (edited ms p toks) = paths p toks.
Proof.
  induction toks as [|tok rest IH]; intros p; [reflexivity|].
  destruct tok; cbn [edited paths pathAfter]; rewrite IH; reflexivity.
Qed.

(** Whole elements accepted on their own are accepted below any open
    elements, and leave these open. *)
Lemma balanced_closed (toks rest : list Token) :
  forall (s1 s2 : list Name),
    closed (List.length s1) toks = true ->
    balanced s1 toks = true ->
    balanced (s1 ++ s2) (toks ++ rest) = balanced s2 rest.
Proof.
  induction toks as [|tok toks IH]; intros s1 s2 Hc Hb.
  - cbn in Hc. apply Nat.eqb_eq in Hc.
    destruct s1; [reflexivity | discriminate Hc].
  - destruct tok; cbn [closed balanced app] in *.
    + apply andb_true_iff in Hb as [Hb1 Hb2]. rewrite Hb1. cbn [andb].
      apply (IH (name :: s1) s2); assumption.
    + destruct s1 as [|top s1]; [discriminate|].
      cbn [List.length app] in *.
      apply andb_true_iff in Hb as [Hb1 Hb2]. rewrite Hb1. cbn [andb].
      now apply IH.
    + now apply IH.
    + apply andb_true_iff in Hb as [Hb1 Hb2]. rewrite Hb1. cbn [andb].
      now apply IH.
    + apply andb_true_iff in Hb as [Hb1 Hb2]. rewrite Hb1. cbn [andb].
      now apply IH.
    + apply andb_true_iff in Hb as [Hb1 Hb2]. rewrite Hb1. cbn [andb].
      now apply IH.
Qed.

(** An end tag after whole elements is written on its own. *)
Lemma collapse_closed_end (toks : list Token) (name : Name) :
  forall d stk,
    closed d toks = true ->
    balanced stk toks = true ->
    collapse (toks ++ [EndElement name])
    = collapse toks ++ "</" ++ Local name ++ ">"
    /\ (toks <> [] ->
        closeTail (toks ++ [EndElement name])
        = closeTail toks ++ "</" ++ Local name ++ ">").
Proof.
  induction toks as [|tok toks IH]; intros d stk Hc Hb.
  - split; [|congruence]. cbn. now rewrite append_nil_r.
  - assert (Hcol : collapse ((tok :: toks) ++ [EndElement name])
                   = collapse (tok :: toks) ++ "</" ++ Local name ++ ">").
    { destruct tok; cbn [closed balanced app] in *.
      - apply andb_true_iff in Hb as [Hb1 Hb2].
        apply andb_true_iff in Hb1 as [_ Hh].
        destruct (startHead name0 attr) as [head|] eqn:Eh;
          [|discriminate Hh].
        rewrite !(collapse_start _ _ _ _ Eh).
        destruct (IH (S d) (name0 :: stk) Hc Hb2) as [_ IH2].
        rewrite IH2 by (intros ->; discriminate Hc).
        now rewrite append_assoc.
      - destruct stk as [|top stk]; [discriminate|].
        destruct d as [|d]; [discriminate|].
        apply andb_true_iff in Hb as [_ Hb2].
        cbn [collapse render].
        destruct (IH d stk Hc Hb2) as [-> _]. now rewrite !append_assoc.
      - cbn [collapse]. destruct (IH d stk Hc Hb) as [-> _].
        now rewrite !append_assoc.
      - apply andb_true_iff in Hb as [_ Hb2]. cbn [collapse].
        destruct (IH d stk Hc Hb2) as [-> _]. now rewrite !append_assoc.
      - apply andb_true_iff in Hb as [_ Hb2]. cbn [collapse].
        destruct (IH d stk Hc Hb2) as [-> _]. now rewrite !append_assoc.
      - apply andb_true_iff in Hb as [_ Hb2]. cbn [collapse].
        destruct (IH d stk Hc Hb2) as [-> _]. now rewrite !append_assoc. }
    split; [exact Hcol|]. intros _.
    destruct tok;
      try (cbn [app closeTail] in *; rewrite Hcol;
           now rewrite ?append_assoc).
    cbn [closed balanced app closeTail] in *.
    destruct stk as [|top stk]; [discriminate|].
    destruct d as [|d]; [discriminate|].
    apply andb_true_iff in Hb as [_ Hb2].
    destruct (IH d stk Hc Hb2) as [-> _]. now rewrite !append_assoc.
Qed.
End Elements.

(** ** Elements that are dropped, elements that are written *)

Section Subtrees.
Context {lib : XmlLibrary}.

(** After a start tag that was written, tokens the printer accepts,
    none of them at the path of the plugins, with any modifications. *)
Lemma loop_written ms st b toks :
  nested st ->
  skip st = false ->
  previousWasStart st = true ->
  outbytes st = b ++ ">" ->
  balanced (tags (out st)) toks = true ->
  legacyFree (pathBuf st) toks ->
  exists st',
    loop ms st toks = inl st'
    /\ outbytes st' = b ++ closeTail (edited ms (pathBuf st) toks).
Proof.
  intros [Hd _] Hs Hprev Hb Hbal Hf. rewrite loop_edited.
  destruct (loop_collapse (edited ms (pathBuf st) toks) st Hs Hd) as [_ H].
  - now rewrite balanced_edited.
  - unfold legacyFree. now rewrite paths_edited.
  - now apply H.
Qed.

(** What a start tag that is written leaves in the state. *)
Lemma step_start_state ms st name attr st1 :
  step ms st (StartElement name attr) = inl st1 ->
  skip st1 = false ->
  previousWasStart st1 = true
  /\ tags (out st1) = name :: tags (out st)
  /\ Local name <> "".
Proof.
  unfold step. cbv zeta. intros H Hs.
  destruct (if pathBuf st ++ "/" ++ Local name =? legacyPath
            then ((pluginNo st =? 0)%Z || (pluginNo st =? 1)%Z)
            else skip st) eqn:E.
  - inversion H; subst. cbn in Hs. congruence.
  - cbn [EncodeToken] in H. unfold writeStart in H.
    destruct (Local name =? "") eqn:En; [discriminate|].
    destruct (startHead name _) as [head|] eqn:Eh; [|discriminate].
    inversion H; subst. cbn. repeat split.
    now apply String.eqb_neq.
Qed.

(** Rounds that find the flag [skip] set. *)
Lemma step_skip_start ms st name attr :
  skip st = true ->
  pathBuf st ++ "/" ++ Local name <> legacyPath ->
  step ms st (StartElement name attr)
  = inl {| out := out st; previousWasStart := true;
           pathBuf := pathBuf st ++ "/" ++ Local name;
           skip := true; pluginNo := pluginNo st |}.
Proof.
  intros Hs Hp. apply String.eqb_neq in Hp.
  unfold step. cbv zeta. rewrite Hp, Hs. reflexivity.
Qed.

Lemma step_skip_end ms st name q :
  skip st = true ->
  Truncate (LastIndexByte (pathBuf st) "/") (pathBuf st) = Some q ->
  step ms st (EndElement name)
  = inl {| out := out st; previousWasStart := previousWasStart st;
           pathBuf := q;
           skip := if pathBuf st =? legacyPath then false else true;
           pluginNo := pluginNo st |}.
Proof.
  intros Hs Hq. unfold step. cbv zeta. rewrite Hq, Hs. reflexivity.
Qed.

Lemma step_skip_other ms st tok :
  skip st = true ->
  (forall name attr, tok <> StartElement name attr) ->
  (forall name, tok <> EndElement name) ->
  step ms st tok
  = inl {| out := out st; previousWasStart := false;
           pathBuf := pathBuf st; skip := true; pluginNo := pluginNo st |}.
Proof.
  intros Hs N1 N2. unfold step.
  destruct tok; rewrite ?Hs; try reflexivity;
    [exfalso; eapply N1 | exfalso; eapply N2]; reflexivity.
Qed.

Lemma below_length (stk : list string) (root : string) :
  String.length root
  <= String.length (fold_right (fun n p => p ++ "/" ++ n) root stk).
Proof.
  induction stk as [|n stk IH]; cbn [fold_right]; [lia|].
  rewrite !length_append. lia.
Qed.

(** The induction hypothesis [IH] of [loop_skipped] at the state the
    loop goes on from, with the names [stk] of the open elements. *)
Ltac go_on IH stk :=
  match goal with
  | |- exists st', loop ?ms ?s ?sub = inl st' /\ _ =>
      let st' := fresh "st'" in
      let Hl := fresh "Hl" in
      let Ho := fresh "Ho" in
      let Hr := fresh "Hr" in
      destruct (IH stk s) as (st' & Hl & Ho & Hr);
      [ ..
      | exists st'; cbn [skip pathBuf out pluginNo] in Ho, Hr;
        split; [exact Hl | split; [exact Ho | exact Hr]] ]
  end.

(** The tokens inside a dropped plugin, its own end tag left out:
    nothing is written, the flag stays set and the path comes back to
    the path of the plugin. *)
Lemma loop_skipped ms sub :
  forall (stk : list string) st,
    skip st = true ->
    pathBuf st = fold_right (fun n p => p ++ "/" ++ n) legacyPath stk ->
    Forall (fun n => contains "/" n = false) stk ->
    closed (List.length stk) sub = true ->
    slashFree sub = true ->
    exists st',
      loop ms st sub = inl st'
      /\ out st' = out st /\ skip st' = true
      /\ pathBuf st' = legacyPath /\ pluginNo st' = pluginNo st.
Proof.
  induction sub as [|tok sub IH]; intros stk st Hs Hp Hall Hc Hf.
  - cbn in Hc. apply Nat.eqb_eq in Hc.
    destruct stk; [|discriminate Hc].
    exists st. cbn [loop]. repeat split; assumption.
  - cbn [slashFree forallb] in Hf. apply andb_true_iff in Hf as [Hn Hf].
    fold (slashFree sub) in Hf.
    assert (Hother :
      (forall name attr, tok <> StartElement name attr) ->
      (forall name, tok <> EndElement name) ->
      closed (List.length stk) sub = true ->
      exists st',
        loop ms st (tok :: sub) = inl st'
        /\ out st' = out st /\ skip st' = true
        /\ pathBuf st' = legacyPath /\ pluginNo st' = pluginNo st).
    { intros N1 N2 Hc'. cbn [loop].
      rewrite (step_skip_other ms st tok Hs N1 N2).
      go_on IH stk; cbn [skip pathBuf]; try assumption; reflexivity. }
    destruct tok; cbn [closed] in Hc;
      try (apply Hother; [intros; discriminate | intros; discriminate
                         | assumption]); clear Hother.
    + apply negb_true_iff in Hn.
      assert (Hne : pathBuf st ++ "/" ++ Local name <> legacyPath).
      { intros E. apply (f_equal String.length) in E.
        rewrite Hp, !length_append in E.
        pose proof (below_length stk legacyPath). cbn [String.length] in E.
        lia. }
      cbn [loop]. rewrite (step_skip_start ms st name attr Hs Hne).
      go_on IH (Local name :: stk); cbn [skip pathBuf];
        try assumption; try reflexivity.
      * cbn [fold_right]. now rewrite Hp.
      * now constructor.
    + destruct stk as [|n stk]; [discriminate Hc|].
      cbn [List.length fold_right] in *. inversion Hall as [|? ? Hn' Hall']; subst.
      assert (Hq := Truncate_child
                      (fold_right (fun n p => p ++ "/" ++ n) legacyPath stk)
                      n Hn').
      rewrite <- Hp in Hq.
      assert (Hne : pathBuf st <> legacyPath).
      { intros E. apply (f_equal String.length) in E.
        rewrite Hp, !length_append in E.
        pose proof (below_length stk legacyPath). cbn [String.length] in E.
        lia. }
      apply String.eqb_neq in Hne.
      cbn [loop]. rewrite (step_skip_end ms st name _ Hs Hq), Hne.
      go_on IH stk; cbn [skip pathBuf]; try assumption; reflexivity.
Qed.
End Subtrees.

Lemma Truncate_legacyPath :
  Truncate (LastIndexByte legacyPath "/") legacyPath
  = Some "/project/profiles/profile/build/plugins".
Proof. vm_compute. reflexivity. Qed.

(** * The claims *)

(** ** C1: a modification and the element it names *)

(** The example of the package comment. *)
Example server_port_edited :
  frobnicate server_doc [port_8181] = Returned server_doc_edited.
Proof. reflexivity. Qed.

(** C1, counterexample.  The modification [/a@x=1] names the one element
    of the document, yet the output carries the value of the later
    modification [/a@x=2]. *)
Lemma earlier_modification_overridden :
  frobnicate "<a x='0'/>"
    [{| path := "/a"; attribute := "x"; value := "1" |};
     {| path := "/a"; attribute := "x"; value := "2" |}]
  = Returned ("<a x=" ++ quoted "2" ++ "/>").
Proof. reflexivity. Qed.

(** C1, amended.  Let the path of the modification [m] be the traversal
    path of exactly one start tag of the input, and let no later
    modification of the list name the same path and attribute.  Then the
    call with [m] is the call without modifications on the token stream
    in which that start tag carries the value of [m] on every attribute
    with the local name [m] names, and the call with [m] taken out of
    the list is the same call on the stream where that tag is not
    touched by [m]: the two streams differ in nothing else, and no
    attribute with another name changes. *)
Theorem modification_edits_its_element {lib : XmlLibrary}
    (input : string) (ms1 ms2 : list modification) (m : modification)
    (pre post : list Token) (name : Name) (attr : list Attr) :
  tokens (NewDecoder input) = (pre ++ StartElement name attr :: post)%list ->
  fold_left pathAfter pre "" ++ "/" ++ Local name = path m ->
  occurrences (path m) (tokens (NewDecoder input)) = 1 ->
  Forall (fun m' => ~ (path m' = path m /\ attribute m' = attribute m)) ms2 ->
  let attr' := applyModifications (ms1 ++ ms2) (path m) attr in
  frobnicate input (ms1 ++ m :: ms2)%list
  = run {| tokens :=
             (edited (ms1 ++ ms2) "" pre
                ++ StartElement name (setValue m attr')
                :: edited (ms1 ++ ms2) (path m) post)%list;
           stop := stop (NewDecoder input) |} []
  /\ frobnicate input (ms1 ++ ms2)%list
     = run {| tokens :=
                (edited (ms1 ++ ms2) "" pre
                   ++ StartElement name attr'
                   :: edited (ms1 ++ ms2) (path m) post)%list;
              stop := stop (NewDecoder input) |} []
  /\ Forall (fun a => Local (AttrName a) = attribute m -> Value a = value m)
       (setValue m attr')
  /\ (forall i a,
        nth_error attr' i = Some a -> Local (AttrName a) <> attribute m ->
        nth_error (setValue m attr') i = Some a).
Proof.
  intros Htoks Hpath Hocc Hlast attr'.
  assert (Hno : ~ In (path m) (paths "" pre)
                /\ ~ In (path m) (paths (path m) post)).
  { unfold occurrences in Hocc. rewrite Htoks, paths_app in Hocc.
    cbn [paths pathAfter] in Hocc. rewrite Hpath in Hocc.
    rewrite count_occ_app in Hocc. cbn [count_occ] in Hocc.
    destruct (string_dec (path m) (path m)) as [_|N]; [|congruence].
    split; apply (count_occ_not_In string_dec); lia. }
  destruct Hno as [Hpre Hpost].
  unfold frobnicate.
  rewrite (run_edited (ms1 ++ m :: ms2)), (run_edited (ms1 ++ ms2)).
  rewrite Htoks, 2!edited_app.
  cbn [edited]. rewrite Hpath.
  rewrite (edited_other_paths ms1 ms2 m pre) by assumption.
  rewrite (edited_other_paths ms1 ms2 m post) by assumption.
  rewrite applyModifications_last by assumption.
  repeat split.
  - apply setValue_Forall.
  - intros i a Hi Ha. rewrite (setValue_nth _ _ _ _ Hi).
    apply String.eqb_neq in Ha. now rewrite Ha.
Qed.

(** C1, witness: the example of the package comment. *)
Lemma modification_edits_its_element_witness :
  occurrences (path port_8181) (tokens (NewDecoder server_doc)) = 1
  /\ frobnicate server_doc [port_8181]
     = run {| tokens :=
                [StartElement (mkName "" "server") [];
                 CharData (newline ++ "  ");
                 StartElement (mkName "" "connector")
                   [mkAttr (mkName "" "port") "8181"];
                 EndElement (mkName "" "connector");
                 CharData newline;
                 EndElement (mkName "" "server")];
              stop := EOF |} [].
Proof.
  split; [reflexivity|].
  apply (modification_edits_its_element (lib := fragment) server_doc [] []
           port_8181
           [StartElement (mkName "" "server") []; CharData (newline ++ "  ")]
           [EndElement (mkName "" "connector"); CharData newline;
            EndElement (mkName "" "server")]
           (mkName "" "connector") [mkAttr (mkName "" "port") "8080"]);
    [reflexivity | reflexivity | reflexivity | constructor].
Defined.

(** ** C2: no modification *)

(** The scenario of the specification. *)
Example nested_empty_element :
  frobnicate "<a><b></b></a>" [] = Returned "<a><b/></a>".
Proof. reflexivity. Qed.

(** C2, counterexample.  Without modifications the first plugin of a
    project is missing from the output, which so differs from the input
    by more than the shape of empty elements. *)
Lemma plugin_missing_from_output :
  frobnicate (project_head ++ "<plugin/>x" ++ project_tail) []
  = Returned (project_head ++ "x" ++ project_tail).
Proof. reflexivity. Qed.

(** C2, amended.  Let the decoder read the input to its end as tokens
    the printer accepts, none of them a start tag at the path of the
    dropped plugins, and let the input be these tokens in the printer's
    notation, an empty element written with its end tag or self-closing.
    Then the call without modifications returns the input with every
    empty element self-closing, and nothing else changed. *)
Theorem no_modification_normalizes_empty_elements {lib : XmlLibrary}
    (input output : string) (toks : list Token) :
  NewDecoder input = {| tokens := toks; stop := EOF |} ->
  wellFormed toks = true ->
  legacyFree "" toks ->
  Normalizes toks input output ->
  frobnicate input [] = Returned output.
Proof.
  intros Hd Hw Hf Hn. unfold frobnicate. rewrite Hd.
  rewrite (Normalizes_collapse _ _ _ Hn).
  now apply run_wellFormed.
Qed.

(** C2, witness: the scenario of the specification. *)
Lemma no_modification_normalizes_empty_elements_witness :
  NewDecoder "<a><b></b></a>" = {| tokens := nested_tokens; stop := EOF |}
  /\ wellFormed nested_tokens = true
  /\ frobnicate "<a><b></b></a>" [] = Returned "<a><b/></a>".
Proof.
  split; [reflexivity|]. split; [reflexivity|].
  apply (no_modification_normalizes_empty_elements (lib := fragment)
           "<a><b></b></a>" "<a><b/></a>" nested_tokens).
  - reflexivity.
  - reflexivity.
  - apply legacyFree_check. vm_compute. reflexivity.
  - unfold nested_tokens.
    apply (norm_start (mkName "" "a") [] _ "<a"
             ("<b>" ++ "</" ++ "b" ++ ">" ++ "</a>") "<b/></a>");
      [reflexivity | intros ? ? F; discriminate F |].
    apply (norm_expanded (mkName "" "b") [] (mkName "" "b") _ "<b"
             "</a>" "</a>"); [reflexivity|].
    apply (norm_other (EndElement (mkName "" "a")) [] "" "");
      [intros ? ? F; discriminate F | constructor].
Defined.

(** ** C3: the shape of empty elements *)

(** C3, counterexample.  The start tag of the plugin is directly
    followed by its end tag, and the output holds no tag for it at all:
    the element is dropped. *)
Lemma dropped_plugin_not_self_closed :
  frobnicate (project_head ++ "<plugin></plugin>" ++ project_tail) []
  = Returned
      "<project><profiles><profile><build><plugins/></build></profile></profiles></project>".
Proof. reflexivity. Qed.

(** What the loop does when the end tag of a dropped plugin is directly
    followed by another end tag: line 115 has set [previousWasStart]
    for the dropped start tag and line 155 is not reached for the
    dropped end tag, so the next end tag is fused with whatever was
    written last, here a comment, or meets the panic of line 134. *)
Example end_tag_fused_after_dropped_plugin :
  frobnicate (project_head ++ "<!--c--><plugin/>" ++ project_tail) []
  = Returned
      "<project><profiles><profile><build><plugins><!--c--/></build></profile></profiles></project>"
  /\ frobnicate (project_head ++ " <plugin/>" ++ project_tail) []
     = Panicked ExpectedGT.
Proof. split; reflexivity. Qed.

(** C3, amended.  In a state that does not drop, for a start tag that
    is not at the path of the dropped plugins and that the printer
    accepts: when the end tag follows directly, the loop writes the one
    self-closing tag [head/>], where [head>] is the start tag as the
    printer writes it; when tokens stand in between, in any state the
    loop reaches, the loop writes the start tag, the text of these
    tokens, and the end tag on its own.  The tokens in between are
    whole elements and other tokens that the printer accepts, none of
    them at the path of the plugins; their text is [collapse] of the
    edited tokens, in which every empty element is self-closing. *)
Theorem empty_element_self_closes {lib : XmlLibrary}
    (ms : list modification) (st : state) (name : Name) (attr : list Attr)
    (head : string) :
  skip st = false ->
  pathBuf st ++ "/" ++ Local name <> legacyPath ->
  Local name <> "" ->
  startHead name (applyModifications ms (pathBuf st ++ "/" ++ Local name) attr)
  = Some head ->
  (exists st2,
      loop ms st [StartElement name attr; EndElement name] = inl st2
      /\ outbytes st2 = outbytes st ++ head ++ "/>")
  /\ (forall pre mid,
        loop ms initial pre = inl st ->
        mid <> [] ->
        balanced [] mid = true ->
        closed 0 mid = true ->
        legacyFree (pathBuf st ++ "/" ++ Local name) mid ->
        exists st2,
          loop ms st (StartElement name attr :: mid ++ [EndElement name])
          = inl st2
          /\ outbytes st2
             = outbytes st ++ head ++ ">"
                 ++ collapse (edited ms (pathBuf st ++ "/" ++ Local name) mid)
                 ++ "</" ++ Local name ++ ">").
Proof.
  intros Hs Hp Hn Hh.
  assert (Hstep := step_start ms st name attr head Hs Hp Hn Hh).
  set (st1 := {| out := {| w := outbytes st ++ head ++ ">";
                           tags := name :: tags (out st) |};
                 previousWasStart := true;
                 pathBuf := pathBuf st ++ "/" ++ Local name;
                 skip := false; pluginNo := pluginNo st |}) in *.
  assert (Hsl : 0 < slashes (pathBuf st1)).
  { cbn [st1 pathBuf]. rewrite !slashes_append. cbn. lia. }
  split.
  - eexists. cbn [loop]. rewrite Hstep.
    rewrite (step_end_fused ms st1 name (outbytes st ++ head) name
               (tags (out st)) eq_refl eq_refl);
      [ split; [reflexivity|]; unfold outbytes; cbn; now rewrite !append_assoc
      | unfold outbytes; cbn; now rewrite !append_assoc
      | reflexivity | apply Name_eqb_refl | assumption | assumption ].
  - intros pre mid Hpre Hne Hb Hc Hf.
    assert (Hnst : nested st1).
    { apply (step_nested ms st (StartElement name attr) st1);
        [|exact Hstep].
      apply (loop_nested ms pre initial st nested_initial Hpre). }
    assert (Hbal : balanced (tags (out st1)) (mid ++ [EndElement name])
                   = true).
    { cbn [st1 out tags].
      pose proof (balanced_closed mid [EndElement name] []
                    (name :: tags (out st)) Hc Hb) as E.
      cbn [app] in E. rewrite E. cbn [balanced]. apply String.eqb_neq in Hn.
      now rewrite Hn, Name_eqb_refl. }
    assert (Hfree : legacyFree (pathBuf st1) (mid ++ [EndElement name])).
    { unfold legacyFree in *. rewrite paths_app. cbn [paths].
      now rewrite app_nil_r. }
    destruct (loop_written ms st1 (outbytes st ++ head)
                (mid ++ [EndElement name]) Hnst eq_refl eq_refl)
      as (st2 & Hl & Ho); [| assumption | assumption |].
    { unfold outbytes at 1. cbn [st1 out w]. now rewrite append_assoc. }
    exists st2. cbn [loop]. rewrite Hstep. split; [exact Hl|].
    rewrite Ho. cbn [st1 pathBuf]. rewrite edited_app. cbn [edited].
    set (mid' := edited ms (pathBuf st ++ "/" ++ Local name) mid).
    assert (Hb' : balanced [] mid' = true)
      by (unfold mid'; now rewrite balanced_edited).
    assert (Hc' : closed 0 mid' = true)
      by (unfold mid'; now rewrite closed_edited).
    assert (Hne' : mid' <> []).
    { unfold mid'. destruct mid as [|[] ?]; [congruence | discriminate..]. }
    destruct (collapse_closed_end mid' name 0 [] Hc' Hb') as [_ ->];
      [|assumption].
    rewrite closeTail_not_end.
    + now rewrite !append_assoc.
    + intros n rest E. rewrite E in Hb'. discriminate Hb'.
Qed.

(** C3, witness: both ways of writing an empty element give the same
    tokens and the same self-closing tag, and an element with a child
    element and text keeps its end tag. *)
Lemma empty_element_self_closes_witness :
  NewDecoder "<a></a>" = NewDecoder "<a/>"
  /\ frobnicate "<a></a>" [] = Returned "<a/>"
  /\ (exists st2,
        loop [] initial
          [StartElement (mkName "" "a") []; EndElement (mkName "" "a")]
        = inl st2
        /\ outbytes st2 = outbytes initial ++ "<a" ++ "/>")
  /\ (exists st2,
        loop [] initial
          (StartElement (mkName "" "a") []
             :: [StartElement (mkName "" "b") []; EndElement (mkName "" "b");
                 CharData "t"]
             ++ [EndElement (mkName "" "a")])
        = inl st2
        /\ outbytes st2 = "<a><b/>t</a>").
Proof.
  split; [reflexivity|]. split; [reflexivity|].
  destruct (empty_element_self_closes (lib := fragment) [] initial
              (mkName "" "a") [] "<a") as [H1 H2];
    [reflexivity | discriminate | discriminate | reflexivity |].
  split; [exact H1|].
  destruct (H2 []
              [StartElement (mkName "" "b") []; EndElement (mkName "" "b");
               CharData "t"])
    as (st2 & Hl & Ho);
    [ reflexivity | discriminate | reflexivity | reflexivity
    | apply legacyFree_check; vm_compute; reflexivity |].
  exists st2. split; [exact Hl|]. rewrite Ho. vm_compute. reflexivity.
Defined.

(** ** C4: which edit strings fail to parse *)

(** The scenario of the specification. *)
Example no_at_sign_rejected :
  parseModifications ["foo=bar"] = inr (invalidMod "foo=bar").
Proof. reflexivity. Qed.

(** C4, counterexample.  A string with two [@] before its first [=] is
    parsed: the attribute name takes the second [@]. *)
Lemma two_at_signs_accepted :
  parseModifications ["a@b@c=d"]
  = inl [{| path := "a"; attribute := "b@c"; value := "d" |}].
Proof. reflexivity. Qed.

(** C4, amended.  [parseModifications] fails exactly when one of the
    strings lacks [=], or has no [@] before its first [=]; the error
    is the one of the first such string and holds it verbatim; and a
    string PATH@ATTR=VALUE is parsed to its three parts when PATH holds
    neither [@] nor [=] and ATTR holds no [=]. *)
Theorem parseModifications_fails_exactly (modStrings : list string) :
  ((exists err, parseModifications modStrings = inr err) <->
   Exists (fun s => ~ accepted s) modStrings)
  /\ (forall err, parseModifications modStrings = inr err ->
      exists pre bad post,
        modStrings = (pre ++ bad :: post)%list /\
        Forall accepted pre /\ ~ accepted bad /\
        err = invalidMod bad /\ Contains err bad = true)
  /\ (forall p a v,
      contains "@" p = false -> contains "=" p = false ->
      contains "=" a = false ->
      parseModifications [p ++ "@" ++ a ++ "=" ++ v]
      = inl [{| path := p; attribute := a; value := v |}]).
Proof.
  pose proof (parseModifications_spec modStrings) as H.
  split; [|split].
  - split.
    + intros [err E]. rewrite E in H.
      destruct H as (pre & bad & post & -> & _ & Hbad & _).
      apply Exists_app. right. now constructor.
    + intros HE. destruct (parseModifications modStrings) as [ms|err].
      * destruct H as [Hall _]. exfalso.
        apply Exists_exists in HE as (s & Hin & Hs).
        rewrite Forall_forall in Hall. auto.
      * now exists err.
  - intros err E. rewrite E in H.
    destruct H as (pre & bad & post & -> & Hpre & Hbad & ->).
    exists pre, bad, post. repeat split; auto.
    apply invalidMod_verbatim.
  - intros p a v Hp1 Hp2 Ha. cbn [parseModifications].
    now rewrite parseModification_form.
Qed.

(** ** C5: the empty path *)

(** C5, counterexample.  The edit string [@attr=val] is parsed, to a
    modification with the empty path. *)
Lemma empty_path_parses :
  parseModifications ["@attr=val"]
  = inl [{| path := ""; attribute := "attr"; value := "val" |}].
Proof. reflexivity. Qed.

(** C5, amended.  An edit string that begins with [@], followed by a
    name without [=], then [=] and a value, is parsed to a modification
    with the empty path; such a modification edits no start tag, as a
    traversal path is never empty. *)
Theorem empty_path_accepted {lib : XmlLibrary} (a v : string) :
  contains "=" a = false ->
  parseModifications ["@" ++ a ++ "=" ++ v]
  = inl [{| path := ""; attribute := a; value := v |}]
  /\ forall st name attr,
      step [{| path := ""; attribute := a; value := v |}] st
        (StartElement name attr)
      = step [] st (StartElement name attr).
Proof.
  intros Ha. split.
  - cbn [parseModifications].
    change ("@" ++ a ++ "=" ++ v) with ("" ++ "@" ++ a ++ "=" ++ v).
    now rewrite parseModification_form.
  - intros st name attr. unfold step.
    cbn [applyModifications fold_left path].
    now rewrite path_nonempty.
Qed.

(** C5, witness. *)
Lemma empty_path_accepted_witness :
  contains "=" "attr" = false /\
  parseModifications ["@" ++ "attr" ++ "=" ++ "val"]
  = inl [{| path := ""; attribute := "attr"; value := "val" |}].
Proof.
  split; [reflexivity|].
  apply (empty_path_accepted (lib := fragment) "attr" "val"). reflexivity.
Defined.

(** ** C6: attributes with the same local name *)

(** C6, counterexample.  Both attributes named [x] get the new value,
    not the first one only. *)
Lemma duplicates_both_replaced :
  run {| tokens :=
           [StartElement (mkName "" "e")
              [mkAttr (mkName "" "x") "1"; mkAttr (mkName "" "x") "2"];
            EndElement (mkName "" "e")];
         stop := EOF |}
      [{| path := "/e"; attribute := "x"; value := "9" |}]
  = Returned ("<e x=" ++ quoted "9" ++ " x=" ++ quoted "9" ++ "/>").
Proof. reflexivity. Qed.

(** C6, amended.  When a modification matches the traversal path of a
    start tag, the tag goes on as the tag in which every attribute with
    the local name of the modification carries its value, the first and
    the later ones alike; the attributes with another local name are
    kept. *)
Theorem every_duplicate_replaced {lib : XmlLibrary} (pat : modification)
    (st : state) (name : Name) (attr : list Attr) :
  path pat = pathBuf st ++ "/" ++ Local name ->
  step [pat] st (StartElement name attr)
  = step [] st (StartElement name (setValue pat attr))
  /\ (forall i a,
        nth_error attr i = Some a ->
        Local (AttrName a) = attribute pat ->
        nth_error (setValue pat attr) i
        = Some {| AttrName := AttrName a; Value := value pat |})
  /\ (forall i a,
        nth_error attr i = Some a ->
        Local (AttrName a) <> attribute pat ->
        nth_error (setValue pat attr) i = Some a).
Proof.
  intros Hp. split; [|split].
  - rewrite step_start_edited. cbn [applyModifications fold_left].
    now rewrite <- Hp, String.eqb_refl.
  - intros i a Hi Ha. rewrite (setValue_nth _ _ _ _ Hi).
    apply String.eqb_eq in Ha. now rewrite Ha.
  - intros i a Hi Ha. rewrite (setValue_nth _ _ _ _ Hi).
    apply String.eqb_neq in Ha. now rewrite Ha.
Qed.

(** C6, witness. *)
Lemma every_duplicate_replaced_witness :
  step [{| path := "/e"; attribute := "x"; value := "9" |}] initial
    (StartElement (mkName "" "e")
       [mkAttr (mkName "" "x") "1"; mkAttr (mkName "" "y") "0";
        mkAttr (mkName "" "x") "2"])
  = step [] initial
      (StartElement (mkName "" "e")
         [mkAttr (mkName "" "x") "9"; mkAttr (mkName "" "y") "0";
          mkAttr (mkName "" "x") "9"]).
Proof.
  apply (every_duplicate_replaced (lib := fragment)
           {| path := "/e"; attribute := "x"; value := "9" |} initial
           (mkName "" "e")
           [mkAttr (mkName "" "x") "1"; mkAttr (mkName "" "y") "0";
            mkAttr (mkName "" "x") "2"]).
  reflexivity.
Defined.

(** ** C7: the dropped plugins *)

(** C7, counterexample.  The first profile holds two plugins, which are
    dropped; the plugin of the second profile is the third of the
    document and is written, though it is the first of its scope. *)
Lemma counter_not_reset_per_scope :
  frobnicate
    ("<project><profiles>"
       ++ "<profile><build><plugins><plugin/><plugin/></plugins></build></profile>"
       ++ "<profile><build><plugins><plugin/></plugins></build></profile>"
       ++ "</profiles></project>") []
  = Returned
      ("<project><profiles>"
         ++ "<profile><build><plugins/></build></profile>"
         ++ "<profile><build><plugins><plugin/></plugins></build></profile>"
         ++ "</profiles></project>").
Proof. reflexivity. Qed.

(** A dropped plugin takes its child element and the text in it along:
    of the whole element nothing is written. *)
Example plugin_dropped_with_subtree :
  frobnicate (project_head ++ "<plugin><x>t</x></plugin>" ++ project_tail) []
  = Returned
      "<project><profiles><profile><build><plugins></plugins></build></profile></profiles></project>".
Proof. vm_compute. reflexivity. Qed.

(** C7, amended.  At a start tag whose traversal path is the path of
    the plugins, the flag [skip] is set exactly when fewer than two
    start tags stood at that path earlier in the whole document, and
    the counter then holds their number plus one; the tag is written
    when the flag is not set.  A round that leaves the flag set writes
    nothing, nor does the round of a token other than a start tag that
    finds it set.  An end tag never changes the counter, and clears the
    flag exactly when the path it closes is the path of the plugins.
    So the first two plugins of the document are dropped with their
    subtrees: over the start tag, the whole elements and other tokens
    inside it and the end tag, the loop writes nothing, leaves the open
    elements of the printer as they were, and ends with the flag
    cleared at the path of the enclosing element.  A later plugin
    passes through with its subtree: it is written as the elements of
    a document without plugins are. *)
Theorem first_two_plugins_of_document_dropped {lib : XmlLibrary}
    (ms : list modification) (pre : list Token) (name : Name)
    (attr : list Attr) (st st1 : state) :
  loop ms initial pre = inl st ->
  step ms st (StartElement name attr) = inl st1 ->
  pathBuf st1 = legacyPath ->
  (Z.of_nat (occurrences legacyPath pre) + 1 < 2 ^ 63)%Z ->
  skip st1 = (occurrences legacyPath pre <? 2)%nat
  /\ pluginNo st1 = (Z.of_nat (occurrences legacyPath pre) + 1)%Z
  /\ (skip st1 = true -> out st1 = out st)
  /\ (skip st1 = false ->
      exists head,
        startHead name (applyModifications ms legacyPath attr) = Some head
        /\ outbytes st1 = outbytes st ++ head ++ ">")
  /\ (forall s tok s1,
        step ms s tok = inl s1 ->
        (skip s1 = true -> out s1 = out s)
        /\ (skip s = true ->
            (forall name' attr', tok <> StartElement name' attr') ->
            out s1 = out s))
  /\ (forall s name' s1,
        step ms s (EndElement name') = inl s1 ->
        pluginNo s1 = pluginNo s
        /\ skip s1 = (if pathBuf s =? legacyPath then false else skip s))
  /\ (forall sub name',
        (occurrences legacyPath pre < 2)%nat ->
        closed 0 sub = true ->
        slashFree sub = true ->
        exists st2,
          loop ms st (StartElement name attr :: sub ++ [EndElement name'])
          = inl st2
          /\ out st2 = out st
          /\ skip st2 = false
          /\ pathBuf st2 = "/project/profiles/profile/build/plugins"
          /\ pluginNo st2 = pluginNo st1)
  /\ (forall sub,
        (2 <= occurrences legacyPath pre)%nat ->
        balanced [] sub = true ->
        closed 0 sub = true ->
        legacyFree legacyPath sub ->
        exists st2,
          loop ms st (StartElement name attr :: sub ++ [EndElement name])
          = inl st2
          /\ outbytes st2
             = outbytes st
                 ++ collapse
                      (edited ms (pathBuf st)
                         (StartElement name attr :: sub ++ [EndElement name]))).
Proof.
  intros Hpre Hstep Hpath Hb.
  assert (A : (Z.of_nat
                 (0 + count_occ string_dec (paths (pathBuf initial) pre)
                        legacyPath) < 2 ^ 63)%Z).
  { cbn [pathBuf initial Nat.add]. unfold occurrences in Hb. lia. }
  destruct (loop_counter ms pre initial st 0 Hpre eq_refl A) as [Hn Hp].
  cbn [pathBuf initial Nat.add] in Hn, Hp. fold (occurrences legacyPath pre) in Hn.
  pose proof (step_counter _ _ _ _ Hstep) as Hc.
  pose proof (step_pathBuf _ _ _ _ Hstep) as Hp1.
  cbn [pathAfter] in Hp1. cbv beta iota in Hc.
  rewrite <- Hp1, Hpath, String.eqb_refl in Hc.
  destruct Hc as [Hc1 Hc2].
  rewrite Hn, wrapInt_small in Hc1 by lia.
  assert (Hskip : skip st1 = (occurrences legacyPath pre <? 2)%nat).
  { rewrite Hc2, Hn.
    destruct (occurrences legacyPath pre) as [|[|n]]; [reflexivity..|].
    replace (S (S n) <? 2)%nat with false by (symmetry; apply Nat.ltb_ge; lia).
    apply orb_false_iff. split; apply Z.eqb_neq; lia. }
  split; [exact Hskip|].
  split; [assumption|split; [|split; [|split; [|split; [|split]]]]].
  - apply (step_dropped _ _ _ _ Hstep).
  - intros Hs. rewrite <- Hpath. eapply step_start_written; eassumption.
  - intros s tok s1 H. eapply step_dropped; eassumption.
  - intros s name' s1 H. apply (step_counter _ _ _ _ H).
  - intros sub name' Hlt Hcl Hsf.
    assert (Hs1 : skip st1 = true).
    { rewrite Hskip. now apply Nat.ltb_lt. }
    destruct (loop_skipped ms sub [] st1 Hs1 Hpath (Forall_nil _) Hcl Hsf)
      as (st' & Hl & Ho & Hs' & Hp' & Hpl).
    assert (Hq : Truncate (LastIndexByte (pathBuf st') "/") (pathBuf st')
                 = Some "/project/profiles/profile/build/plugins").
    { rewrite Hp'. apply Truncate_legacyPath. }
    eexists. cbn [loop]. rewrite Hstep, loop_app, Hl. cbn [loop].
    rewrite (step_skip_end ms st' name' _ Hs' Hq), Hp', String.eqb_refl.
    split; [reflexivity|]. cbn [out skip pathBuf pluginNo].
    repeat split; [|assumption].
    rewrite Ho. exact (proj1 (step_dropped _ _ _ _ Hstep) Hs1).
  - intros sub Hge Hbal Hcl Hfree.
    assert (Hs1 : skip st1 = false).
    { rewrite Hskip. now apply Nat.ltb_ge. }
    destruct (step_start_written _ _ _ _ _ Hstep Hs1) as (head & Hh & Ho).
    destruct (step_start_state _ _ _ _ _ Hstep Hs1) as (Hprev & Ht & Hne).
    assert (Hnst : nested st1).
    { apply (step_nested ms st (StartElement name attr) st1);
        [|exact Hstep].
      apply (loop_nested ms pre initial st nested_initial Hpre). }
    assert (Hbal1 : balanced (tags (out st1)) (sub ++ [EndElement name])
                    = true).
    { rewrite Ht.
      pose proof (balanced_closed sub [EndElement name] []
                    (name :: tags (out st)) Hcl Hbal) as E.
      cbn [app] in E. rewrite E. cbn [balanced]. apply String.eqb_neq in Hne.
      now rewrite Hne, Name_eqb_refl. }
    assert (Hfree1 : legacyFree (pathBuf st1) (sub ++ [EndElement name])).
    { rewrite Hpath. unfold legacyFree in *. rewrite paths_app.
      cbn [paths]. now rewrite app_nil_r. }
    destruct (loop_written ms st1 (outbytes st ++ head)
                (sub ++ [EndElement name]) Hnst Hs1 Hprev)
      as (st2 & Hl & Ho2); [| assumption | assumption |].
    { rewrite Ho. now rewrite append_assoc. }
    exists st2. cbn [loop]. rewrite Hstep. split; [exact Hl|].
    rewrite Ho2. cbn [edited]. rewrite <- Hp1.
    rewrite (collapse_start _ _ head) by exact Hh.
    now rewrite append_assoc.
Qed.

(** C7, witness: the third plugin of a document, the first of its
    scope, is written with its child element; the first plugin of a
    document is dropped with it. *)
Lemma first_two_plugins_of_document_dropped_witness :
  loop [] initial two_plugins = inl after_two_plugins
  /\ step [] after_two_plugins (StartElement (mkName "" "plugin") [])
     = inl third_plugin
  /\ occurrences legacyPath two_plugins = 2
  /\ skip third_plugin = false
  /\ pluginNo third_plugin = 3%Z
  /\ (exists st2,
        loop [] after_two_plugins
          (StartElement (mkName "" "plugin") []
             :: child_tokens ++ [EndElement (mkName "" "plugin")])
        = inl st2
        /\ outbytes st2
           = outbytes after_two_plugins ++ "<plugin><x>t</x></plugin>")
  /\ (exists st2,
        loop [] in_plugins
          (StartElement (mkName "" "plugin") []
             :: child_tokens ++ [EndElement (mkName "" "plugin")])
        = inl st2
        /\ out st2 = out in_plugins
        /\ skip st2 = false).
Proof.
  assert (H1 : loop [] initial two_plugins = inl after_two_plugins)
    by (vm_compute; reflexivity).
  assert (H2 : step [] after_two_plugins (StartElement (mkName "" "plugin") [])
               = inl third_plugin) by (vm_compute; reflexivity).
  assert (H3 : occurrences legacyPath two_plugins = 2)
    by (vm_compute; reflexivity).
  assert (K1 : loop [] initial (tokens (Lexer.NewDecoder project_head))
               = inl in_plugins) by (vm_compute; reflexivity).
  assert (K2 : step [] in_plugins (StartElement (mkName "" "plugin") [])
               = inl first_plugin) by (vm_compute; reflexivity).
  assert (K3 : occurrences legacyPath (tokens (Lexer.NewDecoder project_head))
               = 0) by (vm_compute; reflexivity).
  destruct (first_two_plugins_of_document_dropped [] two_plugins
              (mkName "" "plugin") [] after_two_plugins third_plugin H1 H2)
    as (A & B & _ & _ & _ & _ & _ & P).
  - vm_compute; reflexivity.
  - rewrite H3. reflexivity.
  - destruct (first_two_plugins_of_document_dropped []
                (tokens (Lexer.NewDecoder project_head))
                (mkName "" "plugin") [] in_plugins first_plugin K1 K2)
      as (_ & _ & _ & _ & _ & _ & D & _).
    + vm_compute; reflexivity.
    + rewrite K3. reflexivity.
    + rewrite H3 in A, B.
      destruct (P child_tokens) as (st2 & Hl & Ho);
        [ rewrite H3; apply Nat.le_refl | reflexivity | reflexivity
        | apply legacyFree_check; vm_compute; reflexivity |].
      destruct (D child_tokens (mkName "" "plugin"))
        as (st3 & Hl3 & Ho3 & Hs3 & _);
        [ rewrite K3; apply Nat.lt_0_2 | reflexivity | reflexivity |].
      repeat split; try assumption.
      * exists st2. split; [exact Hl|]. rewrite Ho. vm_compute. reflexivity.
      * exists st3. repeat split; assumption.
Defined.

(** ** C8: rewriting the output again *)

(** C8, counterexample.  Of three plugins the first pass drops two; the
    second pass reads the output of the first and drops the third. *)
Lemma second_pass_drops_more :
  frobnicate (project_head ++ "<plugin/><plugin/><plugin/>" ++ project_tail)
    []
  = Returned (project_head ++ "<plugin/>" ++ project_tail)
  /\ frobnicate (project_head ++ "<plugin/>" ++ project_tail) []
     = Returned
         "<project><profiles><profile><build><plugins/></build></profile></profiles></project>".
Proof. split; reflexivity. Qed.

(** C8, amended.  Let a call return [out1] for an input without start
    tag at the path of the dropped plugins, and let the decoder read
    [out1] back, to its end, as the tokens that the call handed to the
    printer.  Then the call on [out1] with the same modifications
    returns [out1] again. *)
Theorem rewrite_twice_without_drops {lib : XmlLibrary} (input out1 : string)
    (mods : list modification) :
  frobnicate input mods = Returned out1 ->
  legacyFree "" (tokens (NewDecoder input)) ->
  NewDecoder out1
  = {| tokens := handed mods dropInitial (tokens (NewDecoder input));
       stop := EOF |} ->
  frobnicate out1 mods = Returned out1.
Proof.
  intros H1 Hfree Hback.
  unfold frobnicate in *. rewrite Hback.
  unfold dropInitial. rewrite handed_legacyFree by assumption.
  rewrite run_edited. cbn [tokens stop]. rewrite edited_idem.
  rewrite <- H1, (run_edited mods (NewDecoder input)).
  now rewrite (run_Returned_EOF _ _ _ H1).
Qed.

(** C8, witness: the example of the package comment, rewritten twice. *)
Lemma rewrite_twice_without_drops_witness :
  frobnicate server_doc [port_8181] = Returned server_doc_edited
  /\ frobnicate server_doc_edited [port_8181] = Returned server_doc_edited.
Proof.
  split; [reflexivity|].
  apply (rewrite_twice_without_drops (lib := fragment) server_doc
           server_doc_edited [port_8181]).
  - reflexivity.
  - apply legacyFree_check. vm_compute. reflexivity.
  - reflexivity.
Defined.

(** ** C9: the end of the token stream *)

(** C9, counterexample.  When the decoder fails, the call does not
    return an error: [log.Fatalf] logs the cause and ends the
    process. *)
Lemma lexing_failure_ends_process :
  run {| tokens := [CharData "x"]; stop := OtherError "unexpected EOF" |} []
  = Fatal "Unexpected error while parsing XML file: unexpected EOF"
  /\ ~ (exists err,
          run {| tokens := [CharData "x"];
                 stop := OtherError "unexpected EOF" |} []
          = Failed err).
Proof. split; [reflexivity|]. intros [err H]. discriminate H. Qed.

(** C9, amended.  When the decoder ends in an error other than
    end-of-stream, the call never returns a buffer; where the same
    tokens followed by end-of-stream make the call return a buffer, the
    error makes it end the process through [log.Fatalf], with a message
    that ends in the text of the cause, and conversely.  When the loop
    gets through the tokens and the decoder then reports end-of-stream,
    the call returns the buffer, with no error. *)
Theorem lexing_failure_is_fatal {lib : XmlLibrary} (toks : list Token)
    (mods : list modification) (text : string) :
  (forall buf,
      run {| tokens := toks; stop := OtherError text |} mods <> Returned buf)
  /\ (forall buf,
        run {| tokens := toks; stop := EOF |} mods = Returned buf ->
        run {| tokens := toks; stop := OtherError text |} mods
        = Fatal ("Unexpected error while parsing XML file: " ++ text))
  /\ (forall msg,
        run {| tokens := toks; stop := OtherError text |} mods = Fatal msg ->
        msg = "Unexpected error while parsing XML file: " ++ text
        /\ exists buf,
            run {| tokens := toks; stop := EOF |} mods = Returned buf)
  /\ (forall st,
        loop mods initial toks = inl st ->
        run {| tokens := toks; stop := EOF |} mods
        = Returned (outbytes st)).
Proof.
  unfold run. cbn [tokens stop].
  destruct (loop mods initial toks) as [st|r] eqn:E.
  - cbn [finish]. repeat split; try congruence; eauto.
  - destruct (loop_abort _ _ _ _ E) as [[err ->]|[p ->]];
      repeat split; intros; try discriminate.
Qed.

(** ** C10: two modifications for one attribute *)

(** C10.  When two modifications of the list name the same path and the
    same attribute and no later one does, the call gives what it gives
    without the earlier of the two; at a start tag with that traversal
    path every attribute with that local name goes to the printer with
    the value of the later one, under the names the token came with; and
    the modifications act in list order, the last of a list after the
    others. *)
Theorem latest_modification_wins {lib : XmlLibrary}
    (ms1 ms2 ms3 : list modification) (m1 m2 : modification) :
  path m1 = path m2 -> attribute m1 = attribute m2 ->
  Forall (fun m' => ~ (path m' = path m2 /\ attribute m' = attribute m2))
    ms3 ->
  (forall input,
      frobnicate input (ms1 ++ m1 :: ms2 ++ m2 :: ms3)%list
      = frobnicate input (ms1 ++ ms2 ++ m2 :: ms3)%list)
  /\ (forall st name attr,
        pathBuf st ++ "/" ++ Local name = path m2 ->
        exists attr1,
          step (ms1 ++ m1 :: ms2 ++ m2 :: ms3)%list st
            (StartElement name attr)
          = step [] st (StartElement name attr1)
          /\ Forall (fun a => Local (AttrName a) = attribute m2 ->
                              Value a = value m2) attr1
          /\ map AttrName attr1 = map AttrName attr)
  /\ (forall ms m cur attr,
        applyModifications (ms ++ [m])%list cur attr
        = if cur =? path m
          then setValue m (applyModifications ms cur attr)
          else applyModifications ms cur attr).
Proof.
  intros Ep Ea Hlast. split; [|split].
  - intros input. unfold frobnicate. apply run_ext. intros cur attr.
    now apply applyModifications_overwritten.
  - intros st name attr Hp.
    eexists. split; [apply step_start_edited|]. rewrite Hp.
    replace (ms1 ++ m1 :: ms2 ++ m2 :: ms3)%list
      with ((ms1 ++ m1 :: ms2) ++ m2 :: ms3)%list
      by (rewrite <- app_assoc; reflexivity).
    rewrite applyModifications_last by assumption.
    split; [apply setValue_Forall|].
    rewrite setValue_names. apply applyModifications_names.
  - intros ms m cur attr. rewrite applyModifications_app.
    reflexivity.
Qed.

(** C10, witness. *)
Lemma latest_modification_wins_witness :
  frobnicate "<a x='0'/>"
    [mkMod "/a" "x" "1"; mkMod "/b" "y" "5"; mkMod "/a" "x" "2"]
  = frobnicate "<a x='0'/>" [mkMod "/b" "y" "5"; mkMod "/a" "x" "2"]
  /\ frobnicate "<a x='0'/>"
       [mkMod "/a" "x" "1"; mkMod "/b" "y" "5"; mkMod "/a" "x" "2"]
     = Returned ("<a x=" ++ quoted "2" ++ "/>").
Proof.
  split; [|reflexivity].
  apply (latest_modification_wins (lib := fragment) []
           [mkMod "/b" "y" "5"] [] (mkMod "/a" "x" "1") (mkMod "/a" "x" "2"));
    [reflexivity | reflexivity | constructor].
Defined.
